(** * WinCoreUtils: the [wls] directory lister

    A shallow embedding of [wls] (flag normalisation, entry collection,
    extension classification, long and grid layout) and the properties of
    its specification.

    Go strings are byte sequences: they are modelled by [string], whose
    characters are the 8-bit [ascii].  [len] counts bytes and [a[i]] is a
    byte.  Go's [int] is modelled by [Z]; the quantities the lister
    computes (sums of a slice length and a terminal width, and indices
    below them) stay far below 2^63 for every slice that fits in memory,
    so no operation wraps. *)

From Stdlib Require Import ZArith Lia Bool List Ascii String.
From Stdlib Require Import Permutation Sorted DecimalString.
Import ListNotations.

Local Open Scope string_scope.
Local Open Scope Z_scope.

(** * The model *)

(** ** Go primitives used by the program *)

Module Go.

(** [len(s)] *)
Definition len (s : string) : Z := Z.of_nat (String.length s).

(** The numeric value of a byte, and back. *)
Definition byteVal (c : ascii) : Z := Z.of_N (N_of_ascii c).
Definition byteOf (z : Z) : ascii := ascii_of_N (Z.to_N z).

(** [utf8.RuneSelf]: bytes below it are single-byte (ASCII) runes. *)
Definition RuneSelf : Z := 128.

Definition isASCIIByte (c : ascii) : bool := byteVal c <? RuneSelf.

Fixpoint isASCII (s : string) : bool :=
  match s with
  | EmptyString => true
  | String c r => isASCIIByte c && isASCII r
  end.

(** [string(b)] for a byte [b]: the conversion of an integer to a string
    yields the UTF-8 encoding of the code point with that value.  A byte is
    below 0x100, so the encoding has one byte (below 0x80) or two. *)
Definition stringOfByte (c : ascii) : string :=
  let v := byteVal c in
  if v <? RuneSelf then String c EmptyString
  else String (byteOf (Z.lor 192 (Z.shiftr v 6)))
         (String (byteOf (Z.lor 128 (Z.land v 63))) EmptyString).

(** [strings.HasPrefix(s, prefix)] *)
Definition HasPrefix (s p : string) : bool := String.prefix p s.

(** [strings.TrimPrefix(s, prefix)] *)
Definition TrimPrefix (s p : string) : string :=
  if HasPrefix s p
  then substring (String.length p) (String.length s - String.length p) s
  else s.

(** [strings.Repeat(" ", n)] for [n >= 0]. *)
Fixpoint spaces (n : nat) : string :=
  match n with
  | O => EmptyString
  | S k => String " " (spaces k)
  end.

(** The bytes [a[1]], [a[2]], ... of a string. *)
Definition bytesFrom1 (a : string) : list ascii :=
  skipn 1 (list_ascii_of_string a).

End Go.

(** ** Flag Normalizer *)

(** The body of the loop of [expandCombinedFlags] for one argument. *)
Definition expandArg (a : string) : list string :=
  if negb (Go.HasPrefix a "-") || Go.HasPrefix a "--" || (Go.len a =? 2)
  then [a]
  else map (fun c => "-" ++ Go.stringOfByte c) (Go.bytesFrom1 a).

Definition expandCombinedFlags (args : list string) : list string :=
  flat_map expandArg args.

(** A combined short-option token, as the specification describes it. *)
Definition isCombined (a : string) : bool :=
  Go.HasPrefix a "-" && negb (Go.HasPrefix a "--") && (2 <? Go.len a).

(** A token that the specification says passes through unchanged. *)
Definition passesThrough (a : string) : bool :=
  (Go.len a =? 2) || Go.HasPrefix a "--" || negb (Go.HasPrefix a "-").

(** The split the specification describes: one token per character after
    the dash, each re-prefixed with a single dash.  A character is taken to
    be a byte, as in the indexing of the source. *)
Definition splitPerCharacter (a : string) : list string :=
  map (fun c => String "-" (String c EmptyString)) (Go.bytesFrom1 a).

(** The normaliser the specification describes.  It is silent about a
    token that is neither combined nor passed through (the lone dash),
    which is left to the code here. *)
Definition normalizeSpec (args : list string) : list string :=
  flat_map (fun a => if isCombined a then splitPerCharacter a
                     else if passesThrough a then [a]
                     else expandArg a) args.

(** The token [-é]: a dash followed by the two bytes of U+00E9. *)
Definition dashEAcute : string :=
  String "-" (String "195" (String "169" EmptyString)).

(** ** Classifier *)

(** What [os.Stat] reports about an entry.  [ModTime] is the local
    modification time as the long format prints it: month (1 to 12), day
    of the month, hour and minute. *)
Record Timestamp := mkTimestamp {
  Month : nat;
  Day : nat;
  Hour : nat;
  Minute : nat
}.

Record FileInfo := mkFileInfo {
  IsDir : bool;
  Mode : string;      (* [fi.Mode().String()] *)
  Size : Z;           (* [fi.Size()], an int64 *)
  ModTime : Timestamp
}.

Inductive DisplayCategory :=
  | Directory | Executable | Archive | Media | Audio | Plain.

Module Path.

(** [os.IsPathSeparator] on Windows. *)
Definition IsPathSeparator (c : ascii) : bool :=
  Ascii.eqb c "\" || Ascii.eqb c "/".

(** The loop of [filepath.Ext]: bytes are visited from the last one
    backwards; [seen] holds the bytes already visited, in path order. *)
Fixpoint extScan (backwards seen : list ascii) : list ascii :=
  match backwards with
  | [] => []
  | c :: rest =>
      if IsPathSeparator c then []
      else if Ascii.eqb c "." then c :: seen
      else extScan rest (c :: seen)
  end.

(** [filepath.Ext(path)] *)
Definition Ext (path : string) : string :=
  string_of_list_ascii (extScan (rev (list_ascii_of_string path)) []).

End Path.

(** ASCII lower-casing of one byte and of a string. *)
Definition lowerByte (c : ascii) : ascii :=
  let v := Go.byteVal c in
  if (65 <=? v) && (v <=? 90) then Go.byteOf (v + 32) else c.

Fixpoint asciiLower (s : string) : string :=
  match s with
  | EmptyString => EmptyString
  | String c r => String (lowerByte c) (asciiLower r)
  end.

(** [s[i:]] for the last [.] of [s], without the dot; empty if [s] has no
    dot: the extension in the words of the specification. *)
Fixpoint afterLastDot (s : string) : option string :=
  match s with
  | EmptyString => None
  | String c r =>
      match afterLastDot r with
      | Some e => Some e
      | None => if Ascii.eqb c "." then Some r else None
      end
  end.

Definition extensionSpec (s : string) : string :=
  match afterLastDot s with Some e => e | None => EmptyString end.

Fixpoint noSeparator (s : string) : bool :=
  match s with
  | EmptyString => true
  | String c r => negb (Path.IsPathSeparator c) && noSeparator r
  end.

(** The four extension tables of the specification. *)
Definition executableExts : list string := ["exe"; "bat"; "cmd"; "com"; "ps1"].
Definition archiveExts : list string := ["zip"; "tar"; "gz"; "tgz"; "7z"; "rar"].
Definition mediaExts : list string :=
  ["jpg"; "jpeg"; "png"; "gif"; "bmp"; "webp"; "mp4"; "mkv"; "mov"; "avi"].
Definition audioExts : list string := ["mp3"; "wav"; "flac"; "aac"; "ogg"].

Definition inTable (e : string) (t : list string) : bool :=
  existsb (String.eqb e) t.

(** Table lookup in the order of the specification. *)
Definition categoryOfExt (e : string) : DisplayCategory :=
  if inTable e executableExts then Executable
  else if inTable e archiveExts then Archive
  else if inTable e mediaExts then Media
  else if inTable e audioExts then Audio
  else Plain.

(** The [switch] statements of the source. *)
Definition isExecutable (ext : string) : bool :=
  (ext =? "exe")%string || (ext =? "bat")%string || (ext =? "cmd")%string
  || (ext =? "com")%string || (ext =? "ps1")%string.

Definition isArchive (ext : string) : bool :=
  (ext =? "zip")%string || (ext =? "tar")%string || (ext =? "gz")%string
  || (ext =? "tgz")%string || (ext =? "7z")%string || (ext =? "rar")%string.

Definition isImageOrVideo (ext : string) : bool :=
  (ext =? "jpg")%string || (ext =? "jpeg")%string || (ext =? "png")%string
  || (ext =? "gif")%string || (ext =? "bmp")%string || (ext =? "webp")%string
  || (ext =? "mp4")%string || (ext =? "mkv")%string || (ext =? "mov")%string
  || (ext =? "avi")%string.

Definition isAudio (ext : string) : bool :=
  (ext =? "mp3")%string || (ext =? "wav")%string || (ext =? "flac")%string
  || (ext =? "aac")%string || (ext =? "ogg")%string.

(** [%d] of a Go integer. *)
Definition decimal (z : Z) : string := NilZero.string_of_int (Z.to_int z).

(** The escape byte 0x1b. *)
Definition esc : string := String "027" EmptyString.

Definition colorWrap (code : Z) (s : string) : string :=
  esc ++ "[" ++ decimal code ++ "m" ++ s ++ esc ++ "[0m".

Definition blue (s : string) : string := colorWrap 34 s.
Definition green (s : string) : string := colorWrap 32 s.
Definition red (s : string) : string := colorWrap 31 s.
Definition magenta (s : string) : string := colorWrap 35 s.
Definition cyan (s : string) : string := colorWrap 36 s.

(** The decoration of each category, in the words of the specification. *)
Definition decorate (cat : DisplayCategory) (name : string) : string :=
  match cat with
  | Directory => blue name
  | Executable => green name
  | Archive => red name
  | Media => magenta name
  | Audio => cyan name
  | Plain => name
  end.

Section Classifier.

(** [strings.ToLower] lower-cases an ASCII-only string byte by byte; on a
    string with a byte from 0x80 up it returns
    [strings.Map(unicode.ToLower, s)], which is driven by the Unicode
    tables of the Go runtime and is taken as given here. *)
Variable mapLower : string -> string.

Definition ToLower (s : string) : string :=
  if Go.isASCII s then asciiLower s else mapLower s.

(** The extension [colorName] looks up. *)
Definition lowerExt (name : string) : string :=
  ToLower (Go.TrimPrefix (Path.Ext name) ".").

Definition colorName (name path : string) (fi : option FileInfo) : string :=
  match fi with
  | None => name
  | Some fi =>
      if IsDir fi then blue name
      else
        let ext := lowerExt name in
        if isExecutable ext then green name
        else if isArchive ext then red name
        else if isImageOrVideo ext then magenta name
        else if isAudio ext then cyan name
        else name
  end.

(** The classifier of the specification, on the extension the source
    takes from the name. *)
Definition classify (isDir : bool) (name : string) : DisplayCategory :=
  if isDir then Directory else categoryOfExt (lowerExt name).

End Classifier.

(** Is the byte an ASCII upper-case letter? *)
Definition isUpperByte (c : ascii) : bool :=
  (65 <=? Go.byteVal c) && (Go.byteVal c <=? 90).

(** The same byte, or the same ASCII letter in its two cases (which are 32
    apart). *)
Definition sameLetter (c d : ascii) : bool :=
  Ascii.eqb c d
  || (isUpperByte c && Ascii.eqb d (Go.byteOf (Go.byteVal c + 32)))
  || (isUpperByte d && Ascii.eqb c (Go.byteOf (Go.byteVal d + 32))).

(** Two names that differ only in the case of ASCII letters: they have the
    same length and are, byte by byte, the same letter. *)
Fixpoint asciiCaseVariant (n1 n2 : string) : bool :=
  match n1, n2 with
  | EmptyString, EmptyString => true
  | String c r1, String d r2 => sameLetter c d && asciiCaseVariant r1 r2
  | _, _ => false
  end.

(** The letter [ſ] (U+017F, long s) in UTF-8, and a name that holds it.
    It is a lower-case letter, which [unicode.ToLower] leaves as it is,
    and its upper case is [S]. *)
Definition longS : string := String "197" (String "191" EmptyString).

Definition nameLongS : string := "a.p" ++ longS ++ "1".

Definition upperByte (c : ascii) : ascii :=
  let v := Go.byteVal c in
  if (97 <=? v) && (v <=? 122) then Go.byteOf (v - 32) else c.

(** [strings.ToUpper] on a string whose only letters outside ASCII are
    long s. *)
Fixpoint upperLongS (s : string) : string :=
  match s with
  | EmptyString => EmptyString
  | String c t =>
      match t with
      | String d r =>
          if Ascii.eqb c "197" && Ascii.eqb d "191"
          then String "S" (upperLongS r)
          else String (upperByte c) (upperLongS t)
      | EmptyString => String (upperByte c) EmptyString
      end
  end.

(** ** The host: file system, console and runtime *)

(** The result of a call that returns a value or an error; an error is
    kept as the text of its [Error()]. *)
Inductive result (A : Type) :=
  | Ok (a : A)
  | Err (msg : string).
Arguments Ok {A} a.
Arguments Err {A} msg.

Record Host := mkHost {
  (** [strings.Map(unicode.ToLower, s)] *)
  hostMapLower : string -> string;
  (** [filepath.Join(dir, name)] *)
  Join : string -> string -> string;
  (** [os.ReadDir(dir)]: the names of the entries, or the error *)
  ReadDir : string -> result (list string);
  (** [os.Stat(path)] *)
  Stat : string -> result FileInfo;
  (** [windows.GetFileAttributes] on the UTF-16 form of a path: the
      attribute word, or [None] when the call fails *)
  GetFileAttributes : string -> option Z;
  (** [term.GetSize] of standard output: the width, or [None] on error *)
  GetSize : option Z;
  (** what package [flag] writes to standard error when it rejects the
      arguments or answers a request for help *)
  flagOutput : list string -> string
}.

(** The two output streams of a run. *)
Record Streams := mkStreams {
  out : string;
  err : string
}.

Definition noOutput : Streams := mkStreams EmptyString EmptyString.

Definition nl : string := String "010" EmptyString.

(** [fmt.Print(s)] *)
Definition Print (s : string) (st : Streams) : Streams :=
  mkStreams (out st ++ s) (err st).

(** [fmt.Println()] *)
Definition Println (st : Streams) : Streams := Print nl st.

(** [fmt.Fprintln(os.Stderr, "error:", e)] *)
Definition reportError (e : string) (st : Streams) : Streams :=
  mkStreams (out st) (err st ++ "error: " ++ e ++ nl).

(** ** Entry Collector *)

Definition FILE_ATTRIBUTE_HIDDEN : Z := 2.

Fixpoint hasNUL (s : string) : bool :=
  match s with
  | EmptyString => false
  | String c r => Ascii.eqb c "000" || hasNUL r
  end.

(** [sort.Strings]: ascending byte-wise order.  A list has one sorted
    permutation under this order ([sortStrings_unique] below), so the
    algorithm does not matter; this one inserts each name in turn. *)
Fixpoint insertSorted (s : string) (l : list string) : list string :=
  match l with
  | [] => [s]
  | h :: t => if String.leb s h then s :: l else h :: insertSorted s t
  end.

Fixpoint sortStrings (l : list string) : list string :=
  match l with
  | [] => []
  | h :: t => insertSorted h (sortStrings t)
  end.

Section Collector.

Variable host : Host.

(** [isHidden]: [UTF16PtrFromString] fails on a path with a NUL byte. *)
Definition isHidden (path : string) : bool :=
  if hasNUL path then false
  else match GetFileAttributes host path with
       | None => false
       | Some attrs => negb (Z.land attrs FILE_ATTRIBUTE_HIDDEN =? 0)
       end.

(** The first loop of [main]: is the entry appended to [names]? *)
Definition keepEntry (dir : string) (allFlag : bool) (name : string) : bool :=
  if negb allFlag then
    if Go.HasPrefix name "." then false
    else if isHidden (Join host dir name) then false
    else true
  else true.

(** The second step: [.] and [..] are appended when [-a] is given and the
    names do not hold them yet. *)
Definition addDotEntries (allFlag : bool) (names : list string) : list string :=
  if allFlag then
    let hasDot := existsb (fun n => (n =? ".")%string) names in
    let hasDotDot := existsb (fun n => (n =? "..")%string) names in
    let names := if negb hasDot then (names ++ ["."])%list else names in
    if negb hasDotDot then (names ++ [".."])%list else names
  else names.

Definition collectNames (dir : string) (allFlag : bool)
    (entries : list string) : list string :=
  sortStrings (addDotEntries allFlag (filter (keepEntry dir allFlag) entries)).

(** The hidden-attribute query of the specification: [None] when the
    query fails. *)
Definition queryHidden (path : string) : option bool :=
  if hasNUL path then None
  else option_map (fun attrs => Z.testbit attrs 1) (GetFileAttributes host path).

(** The visibility rule of the specification. *)
Definition visibleSpec (dir : string) (showHidden : bool) (name : string) : bool :=
  showHidden ||
  (negb (Go.HasPrefix name ".") &&
   match queryHidden (Join host dir name) with
   | Some hidden => negb hidden
   | None => true
   end).

End Collector.

(** ** Command line *)

(** [strconv.ParseBool], used by a boolean flag given as [-name=value]. *)
Definition ParseBool (v : string) : option bool :=
  if existsb (String.eqb v) ["1"; "t"; "T"; "TRUE"; "true"; "True"] then Some true
  else if existsb (String.eqb v) ["0"; "f"; "F"; "FALSE"; "false"; "False"]
  then Some false
  else None.

(** What [FlagSet.parseOne] makes of the next argument. *)
Inductive FlagStep :=
  | NotFlag                                   (* parsing stops, argument kept *)
  | Terminator                                (* [--]: parsing stops, argument dropped *)
  | BadSyntax
  | FlagArg (name : string) (value : option string).

(** The name up to the first [=] that is not its first byte, and the value
    after it. *)
Fixpoint splitValue (s : string) : string * option string :=
  match s with
  | EmptyString => (EmptyString, None)
  | String c r =>
      if Ascii.eqb c "=" then (EmptyString, Some r)
      else let (n, v) := splitValue r in (String c n, v)
  end.

Definition flagName (name : string) : FlagStep :=
  match name with
  | EmptyString => BadSyntax
  | String c r =>
      if Ascii.eqb c "-" || Ascii.eqb c "=" then BadSyntax
      else let (n, v) := splitValue r in FlagArg (String c n) v
  end.

Definition flagStep (s : string) : FlagStep :=
  match s with
  | String c0 (String c1 r) =>
      if negb (Ascii.eqb c0 "-") then NotFlag
      else if Ascii.eqb c1 "-" then
        match r with
        | EmptyString => Terminator
        | _ => flagName r
        end
      else flagName (String c1 r)
  | _ => NotFlag
  end.

Inductive ParseResult :=
  | Parsed (longFlag allFlag : bool) (rest : list string)
  | HelpRequested          (* [-h] or [-help]: usage, then [os.Exit(0)] *)
  | Rejected.              (* a parse error: message and usage, then [os.Exit(2)] *)

Definition setBool (value : option string) : option bool :=
  match value with
  | None => Some true
  | Some v => ParseBool v
  end.

(** [flag.Parse] with the two boolean flags [l] and [a] that [main]
    defines, on the command line's error handling ([ExitOnError]). *)
Fixpoint parseFlags (longFlag allFlag : bool) (args : list string) : ParseResult :=
  match args with
  | [] => Parsed longFlag allFlag []
  | s :: rest =>
      match flagStep s with
      | NotFlag => Parsed longFlag allFlag args
      | Terminator => Parsed longFlag allFlag rest
      | BadSyntax => Rejected
      | FlagArg name value =>
          if (name =? "l")%string then
            match setBool value with
            | Some b => parseFlags b allFlag rest
            | None => Rejected
            end
          else if (name =? "a")%string then
            match setBool value with
            | Some b => parseFlags longFlag b rest
            | None => Rejected
            end
          else if (name =? "help")%string || (name =? "h")%string
          then HelpRequested
          else Rejected
      end
  end.

(** ** Layout Engine *)

(** [%8d] *)
Definition padLeft (width : nat) (s : string) : string :=
  Go.spaces (width - String.length s) ++ s.

Definition twoDigits (n : nat) : string :=
  if (n <? 10)%nat then "0" ++ decimal (Z.of_nat n) else decimal (Z.of_nat n).

Definition monthNames : list string :=
  ["Jan"; "Feb"; "Mar"; "Apr"; "May"; "Jun";
   "Jul"; "Aug"; "Sep"; "Oct"; "Nov"; "Dec"].

(** [t.Format("Jan _2 15:04")] *)
Definition formatTime (t : Timestamp) : string :=
  nth (Month t - 1) monthNames EmptyString ++ " "
  ++ padLeft 2 (decimal (Z.of_nat (Day t))) ++ " "
  ++ twoDigits (Hour t) ++ ":" ++ twoDigits (Minute t).

(** The integers [0], [1], ..., [k - 1] of a counting loop. *)
Definition upto (k : Z) : list Z := map Z.of_nat (seq 0 (Z.to_nat k)).

(** [len(names)] *)
Definition count (names : list string) : Z := Z.of_nat (List.length names).

(** The loop that finds the longest name. *)
Definition maxLen (names : list string) : Z :=
  fold_left (fun m n => if m <? Go.len n then Go.len n else m) names 0.

Definition colWidth (names : list string) : Z := maxLen names + 2.

(** [width / colWidth] truncates, and a result below 1 is raised to 1. *)
Definition cols (names : list string) (width : Z) : Z :=
  let c := Z.quot width (colWidth names) in
  if c <? 1 then 1 else c.

Definition rows (names : list string) (width : Z) : Z :=
  Z.quot (count names + cols names width - 1) (cols names width).

(** The entry of cell [(r, c)]: [None] when the loop body hits
    [continue]. *)
Definition cellIndex (names : list string) (width r c : Z) : option Z :=
  let idx := c * rows names width + r in
  if idx >=? count names then None else Some idx.

Definition entryAt (names : list string) (idx : Z) : string :=
  nth (Z.to_nat idx) names EmptyString.

(** The concatenation of a list of strings. *)
Definition joinAll (l : list string) : string :=
  fold_right String.append EmptyString l.

(** The outcome of a run: what was written and the exit code. *)
Record Outcome := mkOutcome {
  streams : Streams;
  exitCode : Z
}.

Section Listing.

Variable host : Host.

(** [fi, _ := os.Stat(path)]: [nil] when the call fails. *)
Definition statInfo (path : string) : option FileInfo :=
  match Stat host path with
  | Ok fi => Some fi
  | Err _ => None
  end.

(** The line of the long format for an entry with file information. *)
Definition longLine (name path : string) (fi : FileInfo) : string :=
  Mode fi ++ " " ++ padLeft 8 (decimal (Size fi)) ++ " "
  ++ formatTime (ModTime fi) ++ " "
  ++ colorName (hostMapLower host) name path (Some fi) ++ nl.

(** The body of the loop of the long format. *)
Definition longEntry (dir name : string) (st : Streams) : Streams :=
  let path := Join host dir name in
  match Stat host path with
  | Err e => reportError e st
  | Ok fi => Print (longLine name path fi) st
  end.

Definition longListing (dir : string) (names : list string) (st : Streams) : Streams :=
  fold_left (fun st name => longEntry dir name st) names st.



(** The body of the inner loop of the grid. *)
Definition printCell (dir : string) (names : list string) (width r c : Z)
    (st : Streams) : Streams :=
  match cellIndex names width r c with
  | None => st
  | Some idx =>
      let name := entryAt names idx in
      let path := Join host dir name in
      let fi := statInfo path in
      if (c =? cols names width - 1)
         || (c * rows names width + r + rows names width >=? count names)
      then Print (colorName (hostMapLower host) name path fi) st
      else
        let padded := colWidth names - Go.len name in
        let padded := if padded <? 0 then 0 else padded in
        Print (Go.spaces (Z.to_nat padded))
          (Print (colorName (hostMapLower host) name path fi) st)
  end.

(** The body of the outer loop: the cells of a row, then the line end. *)
Definition printRow (dir : string) (names : list string) (width r : Z)
    (st : Streams) : Streams :=
  Println (fold_left (fun st c => printCell dir names width r c st)
             (upto (cols names width)) st).

Definition gridListing (dir : string) (names : list string) (width : Z)
    (st : Streams) : Streams :=
  if maxLen names =? 0 then st
  else fold_left (fun st r => printRow dir names width r st)
         (upto (rows names width)) st.

(** The terminal width: 80 unless the console reports a positive one. *)
Definition termWidth : Z :=
  match GetSize host with
  | Some w => if 0 <? w then w else 80
  | None => 80
  end.

(** The directory to list. *)
Definition targetDir (rest : list string) : string :=
  match rest with
  | d :: _ => d
  | [] => "."
  end.

(** The arguments [flag.Parse] sees. *)
Definition normalizedArgs (args : list string) : list string :=
  if 0 <? count args then expandCombinedFlags args else args.

(** [main], on the arguments after the program name. *)
Definition main (args : list string) : Outcome :=
  let args := normalizedArgs args in
  match parseFlags false false args with
  | Rejected => mkOutcome (mkStreams EmptyString (flagOutput host args)) 2
  | HelpRequested => mkOutcome (mkStreams EmptyString (flagOutput host args)) 0
  | Parsed longFlag allFlag rest =>
      let dir := targetDir rest in
      match ReadDir host dir with
      | Err e => mkOutcome (reportError e noOutput) 1
      | Ok entries =>
          let names := collectNames host dir allFlag entries in
          let width := termWidth in
          if longFlag then mkOutcome (longListing dir names noOutput) 0
          else mkOutcome (gridListing dir names width noOutput) 0
      end
  end.

(** What a cell of the grid prints. *)
Definition cellText (dir : string) (names : list string) (width r c : Z) : string :=
  out (printCell dir names width r c noOutput).

End Listing.

(** The names of the grid read column by column, each from the top. *)
Definition readColumns (names : list string) (width : Z) : list string :=
  flat_map (fun c =>
    flat_map (fun r => match cellIndex names width r c with
                       | Some idx => [entryAt names idx]
                       | None => []
                       end)
      (upto (rows names width)))
    (upto (cols names width)).

(** The grid in the words of the specification. *)
Definition maxLenSpec (names : list string) : Z :=
  fold_right Z.max 0 (map Go.len names).

Definition ceilDiv (a b : Z) : Z := - ((- a) / b).

(** A small host: the directory [.] with three children, of which [docs]
    is a directory and [gone.mp3] cannot be examined. *)
Definition demoStat (path : string) : result FileInfo :=
  if (path =? ".\docs")%string
  then Ok (mkFileInfo true "drwxrwxrwx" 0 (mkTimestamp 3 7 9 5))
  else if (path =? ".\gone.mp3")%string
  then Err "file vanished"
  else Ok (mkFileInfo false "-rw-rw-rw-" 1234 (mkTimestamp 11 21 16 40)).

Definition demoHost : Host :=
  mkHost asciiLower
    (fun dir name => dir ++ "\" ++ name)
    (fun dir => if (dir =? ".")%string
                then Ok [".secret"; "docs"; "gone.mp3"; "setup.EXE"]
                else Err "open: no such directory")
    demoStat
    (fun path => Some 32)
    None
    (fun args => "usage").

(** A directory with the entries [d], [b], [a] and [c], all regular files
    without extension, in a terminal of six columns. *)
Definition lettersHost : Host :=
  mkHost asciiLower
    (fun dir name => dir ++ "\" ++ name)
    (fun dir => Ok ["d"; "b"; "a"; "c"])
    (fun path => Ok (mkFileInfo false "-rw-rw-rw-" 1 (mkTimestamp 1 1 0 0)))
    (fun path => Some 32)
    (Some 6)
    (fun args => "usage").

(** ** Notions used by the statements *)

Definition lebStr (a b : string) : Prop := String.leb a b = true.

(** The synthetic names of the specification: [.] and [..] when hidden
    entries are shown, each only if the directory read did not return it. *)
Definition syntheticSpec (showHidden : bool) (entries : list string) : list string :=
  if showHidden then
    ((if in_dec string_dec "." entries then [] else ["."]) ++
     (if in_dec string_dec ".." entries then [] else [".."]))%list
  else [].

(** Writing [o] to standard output and [e] to standard error. *)
Definition emit (o e : string) (st : Streams) : Streams :=
  mkStreams (out st ++ o) (err st ++ e).

(** Is the cell printed without padding? *)
Definition lastInRow (names : list string) (width r c : Z) : bool :=
  (c =? cols names width - 1)
  || (c * rows names width + r + rows names width >=? count names).

(** Everything the grid mode prints. *)
Definition gridText (host : Host) (dir : string) (names : list string)
    (width : Z) : string :=
  if maxLen names =? 0 then EmptyString
  else joinAll (map (fun r =>
                       joinAll (map (cellText host dir names width r)
                                  (upto (cols names width))) ++ nl)
                  (upto (rows names width))).

(** The names of directory entries: none is empty. *)
Definition entryNames (names : list string) : Prop :=
  Forall (fun n => n <> EmptyString) names.

(** What a cell is to print for the entry with index [idx]: the decorated
    name, and then the padding of the column unless the cell is the last
    of its row. *)
Definition paddedName (host : Host) (dir : string) (names : list string)
    (width r c idx : Z) : string :=
  colorName (hostMapLower host) (entryAt names idx)
    (Join host dir (entryAt names idx))
    (statInfo host (Join host dir (entryAt names idx)))
  ++ (if lastInRow names width r c then EmptyString
      else Go.spaces (Z.to_nat (colWidth names - Go.len (entryAt names idx)))).

(** The names of the cells in the order the loops visit them: row by row,
    each row from the left. *)
Definition readRows (names : list string) (width : Z) : list string :=
  flat_map (fun r =>
    flat_map (fun c => match cellIndex names width r c with
                       | Some idx => [entryAt names idx]
                       | None => []
                       end)
      (upto (cols names width)))
    (upto (rows names width)).

(** The texts the cells with an entry print, read column by column, each
    column from the top. *)
Definition columnTexts (host : Host) (dir : string) (names : list string)
    (width : Z) : list string :=
  flat_map (fun c =>
    flat_map (fun r => match cellIndex names width r c with
                       | Some _ => [cellText host dir names width r c]
                       | None => []
                       end)
      (upto (rows names width)))
    (upto (cols names width)).

(** The text of everything a row prints before its line end. *)
Definition rowText (host : Host) (dir : string) (names : list string)
    (width r : Z) : string :=
  joinAll (map (cellText host dir names width r) (upto (cols names width))).

(** Did the run read the target directory and fail? *)
Definition readFails (host : Host) (args : list string) : bool :=
  match parseFlags false false (normalizedArgs args) with
  | Parsed _ _ rest =>
      match ReadDir host (targetDir rest) with
      | Err _ => true
      | Ok _ => false
      end
  | _ => false
  end.

Definition flagsRejected (args : list string) : bool :=
  match parseFlags false false (normalizedArgs args) with
  | Rejected => true
  | _ => false
  end.

(** The exit code in the words of the specification. *)
Definition exitCodeSpec (host : Host) (args : list string) : Z :=
  if readFails host args then 1 else 0.

(** A host whose directories are all empty. *)
Definition emptyHost : Host :=
  mkHost asciiLower
    (fun dir name => dir ++ "\" ++ name)
    (fun dir => Ok [])
    (fun path => Err "not found")
    (fun path => None)
    (Some 120)
    (fun args => "usage").

(** The names a cell with column-major index [idx] holds: one or none. *)
Definition cellNames (names : list string) (idx : Z) : list string :=
  if idx >=? count names then [] else [entryAt names idx].

(** ** Console mode *)




(** The colour codes of [blue], [green], [red], [magenta] and [cyan]. *)
Definition colorCodes : list Z := [34; 32; 31; 35; 36].

(** ** [wfile]: the file-type detector *)

Module Wfile.

(** The map [common], from extension to description. *)
Definition common : list (string * string) :=
  [("txt", "Text File"); ("md", "Markdown"); ("jpg", "JPEG Image");
   ("jpeg", "JPEG Image"); ("png", "PNG Image"); ("gif", "GIF Image");
   ("exe", "Windows Executable"); ("dll", "Windows DLL");
   ("zip", "ZIP Archive"); ("tar", "TAR Archive"); ("gz", "Gzip Archive");
   ("pdf", "PDF Document"); ("docx", "Word Document");
   ("xlsx", "Excel Workbook"); ("pptx", "PowerPoint Presentation")].

(** [v, ok := m[k]] *)
Fixpoint lookup (m : list (string * string)) (k : string) : option string :=
  match m with
  | [] => None
  | (k', v) :: rest => if (k =? k')%string then Some v else lookup rest k
  end.

(** What the detector asks of its surroundings. *)
Record TypeHost := mkTypeHost {
  (** [strings.Map(unicode.ToLower, s)] *)
  typeMapLower : string -> string;
  (** [os.Stat(path)] *)
  typeStat : string -> result FileInfo;
  (** [mime.TypeByExtension(ext)], empty when the extension is unknown *)
  TypeByExtension : string -> string;
  (** [os.Open(path)]: the bytes the file yields when read, or the error *)
  Open : string -> result string;
  (** [http.DetectContentType(data)] *)
  DetectContentType : string -> string
}.

(** The three results of [detectType]. *)
Record Detected := mkDetected {
  detectedExt : string;
  detectedType : string;
  detectedErr : option string
}.

(** [strings.TrimPrefix(strings.ToLower(filepath.Ext(path)), ".")] *)
Definition fileExt (mapLower : string -> string) (path : string) : string :=
  Go.TrimPrefix (ToLower mapLower (Path.Ext path)) ".".

(** [io.ReadFull] into a buffer of 512 bytes, cut to the bytes read. *)
Definition sniffed (content : string) : string := substring 0 512 content.

(** The fallback of [detectType]: the content is sniffed. *)
Definition sniffType (host : TypeHost) (path ext : string) : Detected :=
  match Open host path with
  | Err e => mkDetected ext EmptyString (Some e)
  | Ok content =>
      let ct := DetectContentType host (sniffed content) in
      if (ct =? "application/octet-stream")%string && (ext =? "")%string
      then mkDetected ext "unknown" None
      else mkDetected ext ct None
  end.

Definition detectType (host : TypeHost) (path : string) : Detected :=
  match typeStat host path with
  | Err e => mkDetected EmptyString EmptyString (Some e)
  | Ok fi =>
      if IsDir fi then mkDetected EmptyString "directory" None
      else
        let ext := fileExt (typeMapLower host) path in
        if negb (ext =? "")%string then
          match lookup common ext with
          | Some v => mkDetected ext v None
          | None =>
              let m := TypeByExtension host ("." ++ ext) in
              if negb (m =? "")%string then mkDetected ext m None
              else sniffType host path ext
          end
        else sniffType host path ext
  end.

(** The body of the loop of [main]. *)
Definition report (host : TypeHost) (path : string) (st : Streams) : Streams :=
  let d := detectType host path in
  match detectedErr d with
  | Some e =>
      mkStreams (out st) (err st ++ "Error: " ++ path ++ ": " ++ e ++ nl)
  | None =>
      let ext := if (detectedExt d =? "")%string then "(none)"
                 else detectedExt d in
      Print (path ++ ": Extension: " ++ ext ++ ", File Type: "
             ++ detectedType d ++ nl) st
  end.

(** [main], on the arguments after the program name. *)
Definition main (host : TypeHost) (args : list string) : Outcome :=
  match args with
  | [] => mkOutcome (mkStreams EmptyString ("Usage: wfile <filename>" ++ nl)) 2
  | _ => mkOutcome (fold_left (fun st path => report host path st) args noOutput) 0
  end.

End Wfile.

(** ** [wla]: the alias of the long listing with hidden files *)

Module Wla.

(** The C string that starts at the first byte of [s]: the bytes before
    the first NUL. *)
Fixpoint cstr (s : string) : string :=
  match s with
  | EmptyString => EmptyString
  | String c r => if Ascii.eqb c "000" then EmptyString else String c (cstr r)
  end.

Definition strlen (s : string) : Z := Z.of_nat (String.length (cstr s)).

(** [strcat(dst, src)]: the string in [dst] afterwards. *)
Definition strcat (dst src : string) : string := cstr dst ++ cstr src.

(** [strchr(s, ' ') != NULL] *)
Fixpoint hasSpace (s : string) : bool :=
  match s with
  | EmptyString => false
  | String c r =>
      if Ascii.eqb c "000" then false
      else Ascii.eqb c " " || hasSpace r
  end.

(** A 32-bit [int]: the value of a wider result after conversion. *)
Definition toInt (z : Z) : Z := (z + 2 ^ 31) mod 2 ^ 32 - 2 ^ 31.

(** The first loop: [bufsize += (int)strlen(argv[i]) + 3]. *)
Definition bufsize (args : list string) : Z :=
  fold_left (fun b a => toInt (b + toInt (toInt (strlen a) + 3))) args 1024.

Definition dquote : string := String "034" EmptyString.

(** The body of the second loop. *)
Definition appendArg (cmd a : string) : string :=
  let cmd := strcat cmd " " in
  let needq := hasSpace a in
  let cmd := if needq then strcat cmd dquote else cmd in
  let cmd := strcat cmd a in
  if needq then strcat cmd dquote else cmd.

(** The command line handed to [CreateProcessA]. *)
Definition buildCmd (args : list string) : string :=
  fold_left appendArg args (cstr "wls.exe -l -a").

(** The process side: whether [malloc] of a size succeeds, and what
    becomes of the child: [None] when [CreateProcessA] fails, else the
    exit code [GetExitCodeProcess] stores (a DWORD), if it stores one. *)
Record Processes := mkProcesses {
  mallocOk : Z -> bool;
  CreateProcessA : string -> option (option Z)
}.

(** The value [main] returns. *)
Definition main (os : Processes) (args : list string) : Z :=
  if negb (mallocOk os (bufsize args)) then 2
  else
    match CreateProcessA os (buildCmd args) with
    | None => 1
    | Some stored =>
        toInt (match stored with Some code => code | None => 0 end)
    end.

End Wla.

(** A small world for [wfile]: [src] is a directory, [missing] does not
    exist, the system knows the MIME type of [.css], and no content is
    recognised. *)
Definition demoTypeHost : Wfile.TypeHost :=
  Wfile.mkTypeHost asciiLower
    (fun path =>
       if (path =? "missing")%string then Err "no such file"
       else if (path =? "src")%string
       then Ok (mkFileInfo true "drwxrwxrwx" 0 (mkTimestamp 3 7 9 5))
       else Ok (mkFileInfo false "-rw-rw-rw-" 1234 (mkTimestamp 11 21 16 40)))
    (fun ext => if (ext =? ".css")%string then "text/css; charset=utf-8"
                else EmptyString)
    (fun path => Ok "plain words")
    (fun data => "application/octet-stream").


(** What the first loop of [wla] adds to the buffer size. *)
Definition argsSize (args : list string) : Z :=
  fold_right (fun a s => Wla.strlen a + 3 + s) 0 args.


(** Processes for which [malloc] succeeds and the child ends with 1. *)
Definition demoProcesses : Wla.Processes :=
  Wla.mkProcesses (fun size => true) (fun cmd => Some (Some 1)).

(** * Lemmas and theorems *)

(** ** Facts about the primitives *)

Lemma stringOfByte_ascii (c : ascii) :
  Go.isASCIIByte c = true -> Go.stringOfByte c = String c EmptyString.
Proof.
  unfold Go.isASCIIByte, Go.stringOfByte. intros ->. reflexivity.
Qed.

Lemma expandArg_passes (a : string) :
  passesThrough a = true -> expandArg a = [a].
Proof.
  unfold passesThrough, expandArg. intros H.
  destruct (Go.len a =? 2), (Go.HasPrefix a "--"), (Go.HasPrefix a "-");
    simpl in *; try reflexivity; discriminate.
Qed.

Lemma expandArg_combined (a : string) :
  isCombined a = true ->
  expandArg a = map (fun c => "-" ++ Go.stringOfByte c) (Go.bytesFrom1 a).
Proof.
  unfold isCombined, expandArg. intros H.
  apply andb_prop in H as [H H2]. apply andb_prop in H as [H0 H1].
  rewrite H0. apply negb_true_iff in H1. rewrite H1.
  apply Z.ltb_lt in H2.
  destruct (Z.eqb_spec (Go.len a) 2); [lia | reflexivity].
Qed.

Lemma isASCII_bytesFrom1 (a : string) :
  Go.isASCII a = true ->
  Forall (fun c => Go.isASCIIByte c = true) (Go.bytesFrom1 a).
Proof.
  destruct a as [|c r]; [constructor|].
  unfold Go.bytesFrom1. simpl. intros H. apply andb_prop in H as [_ H].
  induction r as [|d r IH]; simpl; [constructor|].
  simpl in H. apply andb_prop in H as [Hd Hr].
  constructor; [exact Hd | exact (IH Hr)].
Qed.

(** On a token of ASCII bytes the code splits as the specification says. *)
Lemma expandArg_ascii_split (a : string) :
  Go.isASCII a = true -> isCombined a = true ->
  expandArg a = splitPerCharacter a.
Proof.
  intros Ha Hc. rewrite (expandArg_combined a Hc).
  unfold splitPerCharacter. apply map_ext_in.
  intros c Hin. pose proof (isASCII_bytesFrom1 a Ha) as Hall.
  rewrite Forall_forall in Hall. rewrite (stringOfByte_ascii c (Hall c Hin)).
  reflexivity.
Qed.

Lemma expandArg_dash_byte (c : ascii) :
  Go.isASCIIByte c = true ->
  expandArg ("-" ++ Go.stringOfByte c) = ["-" ++ Go.stringOfByte c].
Proof.
  intros Hc. rewrite (stringOfByte_ascii c Hc).
  apply expandArg_passes. reflexivity.
Qed.

(** Every token the normaliser emits for an ASCII argument is left alone by
    a second pass. *)
Lemma expandArg_ascii_stable (a : string) :
  Go.isASCII a = true ->
  Forall (fun t => expandArg t = [t]) (expandArg a).
Proof.
  intros Ha. unfold expandArg at 2.
  destruct (negb (Go.HasPrefix a "-") || Go.HasPrefix a "--" || (Go.len a =? 2))
    eqn:Hcond.
  - constructor; [|constructor]. unfold expandArg. rewrite Hcond. reflexivity.
  - apply Forall_map. eapply Forall_impl; [|exact (isASCII_bytesFrom1 a Ha)].
    intros c Hc. exact (expandArg_dash_byte c Hc).
Qed.

Lemma flat_map_fixed {A : Type} (f : A -> list A) (l : list A) :
  Forall (fun t => f t = [t]) l -> flat_map f l = l.
Proof.
  induction 1 as [|t l Ht _ IH]; simpl; [reflexivity|].
  rewrite Ht, IH. reflexivity.
Qed.

(** Idempotence holds on arguments made of ASCII bytes. *)
Lemma expandCombinedFlags_ascii_idempotent (args : list string) :
  Forall (fun a => Go.isASCII a = true) args ->
  expandCombinedFlags (expandCombinedFlags args) = expandCombinedFlags args.
Proof.
  intros Hall. unfold expandCombinedFlags. apply flat_map_fixed.
  induction Hall as [|a args Ha _ IH]; simpl; [constructor|].
  apply Forall_app. split; [exact (expandArg_ascii_stable a Ha) | exact IH].
Qed.

(** On ASCII arguments the normaliser is the one the specification
    describes. *)
Lemma expandCombinedFlags_ascii_spec (args : list string) :
  Forall (fun a => Go.isASCII a = true) args ->
  expandCombinedFlags args = normalizeSpec args.
Proof.
  unfold expandCombinedFlags, normalizeSpec.
  induction 1 as [|a args Ha _ IH]; simpl; [reflexivity|].
  rewrite IH. f_equal.
  destruct (isCombined a) eqn:Hc.
  - exact (expandArg_ascii_split a Ha Hc).
  - destruct (passesThrough a) eqn:Hp; [exact (expandArg_passes a Hp) | reflexivity].
Qed.

(** ** Properties of the Flag Normalizer *)

(** C5 (the code where it departs from the specification).  The token
    [-é] is a combined short-option token: a single dash followed by the
    bytes 0xC3 0xA9.  The specification asks for one token per character
    after the dash, each the dash followed by that character.  The code
    emits, for each byte after the dash, the dash followed by the UTF-8
    encoding of the code point numbered like the byte: [-Ã] (0x2D 0xC3
    0x83) and [-©] (0x2D 0xC2 0xA9), tokens of three bytes that hold bytes
    the input does not have.  This is neither the split byte by byte nor,
    with [é] read as one character, the token itself. *)
Theorem expandCombinedFlags_non_ascii_token :
  isCombined dashEAcute = true /\
  expandCombinedFlags [dashEAcute] =
    [String "-" (String "195" (String "131" EmptyString));
     String "-" (String "194" (String "169" EmptyString))] /\
  splitPerCharacter dashEAcute =
    [String "-" (String "195" EmptyString);
     String "-" (String "169" EmptyString)] /\
  expandCombinedFlags [dashEAcute] <> normalizeSpec [dashEAcute] /\
  expandCombinedFlags [dashEAcute] <> [dashEAcute].
Proof.
  repeat split; try reflexivity; vm_compute; discriminate.
Qed.

(** C6 (the code where it departs from the specification).  A second
    pass over the output for [-é] splits the three-byte tokens [-Ã] and
    [-©] again: the normaliser is not idempotent on this argument list. *)
Theorem expandCombinedFlags_not_idempotent :
  expandCombinedFlags (expandCombinedFlags [dashEAcute]) =
    [String "-" (String "195" (String "131" EmptyString));
     String "-" (String "194" (String "131" EmptyString));
     String "-" (String "195" (String "130" EmptyString));
     String "-" (String "194" (String "169" EmptyString))] /\
  expandCombinedFlags (expandCombinedFlags [dashEAcute]) <>
    expandCombinedFlags [dashEAcute].
Proof.
  split; [reflexivity | vm_compute; discriminate].
Qed.

(** C9.  A token that is exactly one dash is dropped: it takes the split
    branch, whose loop over the bytes after the dash has nothing to emit.
    So the output can be strictly shorter than the input. *)
Theorem expandCombinedFlags_drops_single_dash :
  (forall pre post : list string,
     expandCombinedFlags (pre ++ "-" :: post)%list =
     (expandCombinedFlags pre ++ expandCombinedFlags post)%list) /\
  (exists args : list string,
     (List.length (expandCombinedFlags args) < List.length args)%nat).
Proof.
  split.
  - intros pre post. unfold expandCombinedFlags.
    rewrite flat_map_app. reflexivity.
  - exists ["-l"; "-"; "dir"]. vm_compute. lia.
Qed.

(** ** Facts about bytes, lower-casing and extensions *)

Ltac by_bytes c := destruct c as [[] [] [] [] [] [] [] []]; reflexivity.

Lemma lowerByte_idem (c : ascii) : lowerByte (lowerByte c) = lowerByte c.
Proof. by_bytes c. Qed.

Lemma lowerByte_isASCII (c : ascii) :
  Go.isASCIIByte (lowerByte c) = Go.isASCIIByte c.
Proof. by_bytes c. Qed.

Lemma lowerByte_dot (c : ascii) :
  Ascii.eqb (lowerByte c) "." = Ascii.eqb c ".".
Proof. by_bytes c. Qed.

Lemma lowerByte_separator (c : ascii) :
  Path.IsPathSeparator (lowerByte c) = Path.IsPathSeparator c.
Proof. by_bytes c. Qed.

Lemma asciiLower_idem (s : string) : asciiLower (asciiLower s) = asciiLower s.
Proof.
  induction s as [|c r IH]; simpl; [reflexivity|].
  rewrite lowerByte_idem, IH. reflexivity.
Qed.

Lemma asciiLower_isASCII (s : string) :
  Go.isASCII (asciiLower s) = Go.isASCII s.
Proof.
  induction s as [|c r IH]; simpl; [reflexivity|].
  rewrite lowerByte_isASCII, IH. reflexivity.
Qed.

Lemma asciiLower_bytes (s : string) :
  list_ascii_of_string (asciiLower s) = map lowerByte (list_ascii_of_string s).
Proof.
  induction s as [|c r IH]; simpl; [reflexivity|]. rewrite IH. reflexivity.
Qed.

Lemma asciiLower_of_bytes (l : list ascii) :
  asciiLower (string_of_list_ascii l) = string_of_list_ascii (map lowerByte l).
Proof.
  induction l as [|c l IH]; simpl; [reflexivity|]. rewrite IH. reflexivity.
Qed.

Lemma extScan_lower (backwards seen : list ascii) :
  Path.extScan (map lowerByte backwards) (map lowerByte seen) =
  map lowerByte (Path.extScan backwards seen).
Proof.
  revert seen. induction backwards as [|c rest IH]; intros seen; simpl.
  - reflexivity.
  - rewrite lowerByte_separator, lowerByte_dot.
    destruct (Path.IsPathSeparator c); [reflexivity|].
    destruct (Ascii.eqb c "."); [reflexivity|].
    exact (IH (c :: seen)).
Qed.

Lemma Ext_lower (s : string) :
  Path.Ext (asciiLower s) = asciiLower (Path.Ext s).
Proof.
  unfold Path.Ext. rewrite asciiLower_bytes, <- map_rev.
  rewrite asciiLower_of_bytes.
  rewrite <- (extScan_lower (rev (list_ascii_of_string s)) []).
  reflexivity.
Qed.

Lemma substring_all (s : string) : substring 0 (String.length s) s = s.
Proof.
  induction s as [|c r IH]; simpl; [reflexivity|]. rewrite IH. reflexivity.
Qed.

Lemma TrimPrefix_dot (c : ascii) (r : string) :
  Go.TrimPrefix (String c r) "." =
  if Ascii.eqb c "." then r else String c r.
Proof.
  unfold Go.TrimPrefix, Go.HasPrefix.
  change (prefix "." (String c r))
    with (if ascii_dec "." c then prefix "" r else false).
  destruct (ascii_dec "." c) as [<-|Hne].
  - destruct r; simpl; rewrite ?substring_all; reflexivity.
  - destruct (Ascii.eqb_spec c "."); [congruence | reflexivity].
Qed.

Lemma TrimPrefix_dot_lower (e : string) :
  Go.TrimPrefix (asciiLower e) "." = asciiLower (Go.TrimPrefix e ".").
Proof.
  destruct e as [|c r]; [reflexivity|].
  simpl asciiLower at 1. rewrite !TrimPrefix_dot, lowerByte_dot.
  destruct (Ascii.eqb c "."); reflexivity.
Qed.

Lemma isExecutable_table (e : string) :
  isExecutable e = inTable e executableExts.
Proof.
  unfold isExecutable, inTable, executableExts. simpl.
  rewrite orb_false_r, <- !orb_assoc. reflexivity.
Qed.

Lemma isArchive_table (e : string) : isArchive e = inTable e archiveExts.
Proof.
  unfold isArchive, inTable, archiveExts. simpl.
  rewrite orb_false_r, <- !orb_assoc. reflexivity.
Qed.

Lemma isImageOrVideo_table (e : string) :
  isImageOrVideo e = inTable e mediaExts.
Proof.
  unfold isImageOrVideo, inTable, mediaExts. simpl.
  rewrite orb_false_r, <- !orb_assoc. reflexivity.
Qed.

Lemma isAudio_table (e : string) : isAudio e = inTable e audioExts.
Proof.
  unfold isAudio, inTable, audioExts. simpl.
  rewrite orb_false_r, <- !orb_assoc. reflexivity.
Qed.

(** [extScan] walks over bytes that are neither a dot nor a separator. *)
Lemma extScan_skip (l rest seen : list ascii) :
  Forall (fun c => Path.IsPathSeparator c = false /\ Ascii.eqb c "." = false) l ->
  Path.extScan (rev l ++ rest) seen = Path.extScan rest (l ++ seen).
Proof.
  intros Hl. revert rest. induction Hl as [|c l [Hs Hd] _ IH]; intros rest.
  - reflexivity.
  - simpl rev. rewrite <- app_assoc. rewrite IH. simpl. rewrite Hs, Hd.
    reflexivity.
Qed.

(** The shape of a name behind [afterLastDot]. *)
Lemma afterLastDot_split (s : string) :
  noSeparator s = true ->
  match afterLastDot s with
  | Some e =>
      exists pre : list ascii,
        list_ascii_of_string s =
          (pre ++ "."%char :: list_ascii_of_string e)%list /\
        Forall (fun c => Path.IsPathSeparator c = false /\ Ascii.eqb c "." = false)
               (list_ascii_of_string e)
  | None =>
      Forall (fun c => Path.IsPathSeparator c = false /\ Ascii.eqb c "." = false)
             (list_ascii_of_string s)
  end.
Proof.
  induction s as [|c r IH]; simpl; intros Hs; [constructor|].
  apply andb_prop in Hs as [Hc Hr]. apply negb_true_iff in Hc.
  specialize (IH Hr). destruct (afterLastDot r) as [e|].
  - destruct IH as [pre [Heq Hall]]. exists (c :: pre). simpl.
    rewrite Heq. split; [reflexivity | exact Hall].
  - destruct (Ascii.eqb_spec c ".") as [->|Hne].
    + exists []. split; [reflexivity | exact IH].
    + constructor; [|exact IH]. split; [exact Hc|].
      destruct (Ascii.eqb_spec c "."); [contradiction | reflexivity].
Qed.

(** On a name without path separators, the source takes the extension the
    specification describes. *)
Lemma Ext_extensionSpec (name : string) :
  noSeparator name = true ->
  Go.TrimPrefix (Path.Ext name) "." = extensionSpec name.
Proof.
  intros Hs. pose proof (afterLastDot_split name Hs) as H.
  unfold extensionSpec, Path.Ext. destruct (afterLastDot name) as [e|].
  - destruct H as [pre [Heq Hall]]. rewrite Heq.
    rewrite rev_app_distr. simpl rev. rewrite <- app_assoc.
    rewrite (extScan_skip _ _ _ Hall). simpl. rewrite app_nil_r.
    rewrite TrimPrefix_dot. simpl. apply string_of_list_ascii_of_string.
  - rewrite <- (app_nil_r (rev _)). rewrite (extScan_skip _ _ _ H).
    reflexivity.
Qed.

Lemma sameLetter_lower (c d : ascii) :
  sameLetter c d = true -> lowerByte c = lowerByte d.
Proof.
  unfold sameLetter. intros H.
  apply orb_prop in H as [H|H]; [apply orb_prop in H as [H|H]|].
  - apply Ascii.eqb_eq in H. subst d. reflexivity.
  - apply andb_prop in H as [Hu H]. apply Ascii.eqb_eq in H. subst d.
    destruct c as [[] [] [] [] [] [] [] []];
      try (vm_compute in Hu; discriminate Hu); reflexivity.
  - apply andb_prop in H as [Hu H]. apply Ascii.eqb_eq in H. subst c.
    destruct d as [[] [] [] [] [] [] [] []];
      try (vm_compute in Hu; discriminate Hu); reflexivity.
Qed.

Lemma asciiCaseVariant_lower (n1 n2 : string) :
  asciiCaseVariant n1 n2 = true -> asciiLower n1 = asciiLower n2.
Proof.
  revert n2. induction n1 as [|c r1 IH]; intros [|d r2]; simpl;
    try discriminate; [reflexivity|].
  intros H. apply andb_prop in H as [Hc Hr].
  rewrite (sameLetter_lower c d Hc), (IH r2 Hr). reflexivity.
Qed.

(** ** Properties of the Classifier *)

Section ClassifierProperties.

Variable mapLower : string -> string.

(** Lower-casing ASCII letters first does not change what the Unicode
    mapping returns: [unicode.ToLower] lower-cases ASCII letters too, and
    changing the case of an ASCII byte moves no rune boundary. *)
Hypothesis mapLower_fold : forall s, mapLower (asciiLower s) = mapLower s.

Lemma ToLower_fold (s : string) :
  ToLower mapLower (asciiLower s) = ToLower mapLower s.
Proof.
  unfold ToLower. rewrite asciiLower_isASCII.
  destruct (Go.isASCII s); [apply asciiLower_idem | apply mapLower_fold].
Qed.

Lemma lowerExt_fold (name : string) :
  lowerExt mapLower (asciiLower name) = lowerExt mapLower name.
Proof.
  unfold lowerExt. rewrite Ext_lower, TrimPrefix_dot_lower.
  apply ToLower_fold.
Qed.

Lemma lowerExt_asciiCaseVariant (n1 n2 : string) :
  asciiCaseVariant n1 n2 = true ->
  lowerExt mapLower n1 = lowerExt mapLower n2.
Proof.
  intros H. apply asciiCaseVariant_lower in H.
  rewrite <- (lowerExt_fold n1), <- (lowerExt_fold n2), H. reflexivity.
Qed.

Lemma colorName_decorate (name path : string) (fi : FileInfo) :
  colorName mapLower name path (Some fi) =
  decorate (classify mapLower (IsDir fi) name) name.
Proof.
  unfold colorName, classify, categoryOfExt.
  destruct (IsDir fi); [reflexivity|].
  rewrite isExecutable_table, isArchive_table, isImageOrVideo_table,
    isAudio_table.
  destruct (inTable _ executableExts); [reflexivity|].
  destruct (inTable _ archiveExts); [reflexivity|].
  destruct (inTable _ mediaExts); [reflexivity|].
  destruct (inTable _ audioExts); reflexivity.
Qed.

(** C2, as the code has it.  The decoration [colorName] returns for an
    entry with file information is the one of a category that is a
    function of the directory status and of the lower-cased extension
    alone: Directory for
    a directory whatever the name, otherwise the first of the four tables
    (Executable, Archive, Media, Audio) that holds the extension, and Plain
    when none does.  On a name without path separator the extension is the
    lower-cased substring after the final dot, empty when there is no dot.
    The four tables are disjoint, and two names that differ only in the
    case of ASCII letters get the same category, whatever other bytes
    they hold. *)
Theorem classify_total_case_insensitive :
  (forall (name path : string) (fi : FileInfo),
     colorName mapLower name path (Some fi) =
     decorate (classify mapLower (IsDir fi) name) name) /\
  (forall (isDir : bool) (name : string),
     exists! c : DisplayCategory, classify mapLower isDir name = c) /\
  (forall name : string, classify mapLower true name = Directory) /\
  (forall name : string,
     classify mapLower false name =
     let e := lowerExt mapLower name in
     if inTable e executableExts then Executable
     else if inTable e archiveExts then Archive
     else if inTable e mediaExts then Media
     else if inTable e audioExts then Audio
     else Plain) /\
  (forall name : string,
     noSeparator name = true ->
     lowerExt mapLower name = ToLower mapLower (extensionSpec name)) /\
  (forall (isDir : bool) (n1 n2 : string),
     lowerExt mapLower n1 = lowerExt mapLower n2 ->
     classify mapLower isDir n1 = classify mapLower isDir n2) /\
  NoDup (executableExts ++ archiveExts ++ mediaExts ++ audioExts) /\
  (forall (isDir : bool) (n1 n2 : string),
     asciiCaseVariant n1 n2 = true ->
     classify mapLower isDir n1 = classify mapLower isDir n2).
Proof.
  split; [exact colorName_decorate|].
  split.
  { intros isDir name. exists (classify mapLower isDir name).
    split; [reflexivity | intros c Hc; exact Hc]. }
  split; [reflexivity|].
  split; [reflexivity|].
  split.
  { intros name Hs. unfold lowerExt. rewrite (Ext_extensionSpec name Hs).
    reflexivity. }
  split.
  { intros isDir n1 n2 He. unfold classify. rewrite He. reflexivity. }
  split.
  { unfold executableExts, archiveExts, mediaExts, audioExts. simpl.
    repeat (constructor;
            [simpl; intros H; repeat (destruct H as [H|H]; [discriminate H|]);
             exact H|]).
    constructor. }
  intros isDir n1 n2 Hv. unfold classify.
  rewrite (lowerExt_asciiCaseVariant n1 n2 Hv). reflexivity.
Qed.

End ClassifierProperties.

(** The classifier at [a.JPG] and [a.jpg], with a runtime whose Unicode
    mapping lower-cases ASCII letters only. *)
Lemma classify_total_case_insensitive_witness :
  classify asciiLower false "a.JPG" = classify asciiLower false "a.jpg" /\
  classify asciiLower false "a.JPG" = Media.
Proof.
  split; [|reflexivity].
  apply (classify_total_case_insensitive asciiLower asciiLower_idem).
  reflexivity.
Defined.

(** C2, counterexample.  The name [a.pſ1] and the same name in upper case,
    [A.PS1]: the extension [PS1] lower-cases to [ps1], an executable, while
    [pſ1] is in lower case already and in no table.  The Unicode mapping
    of the runtime leaves every byte of [pſ1] as it is, as the mapping
    used here does. *)
Lemma classify_long_s_case_change :
  upperLongS nameLongS = "A.PS1" /\
  lowerExt asciiLower nameLongS = "p" ++ longS ++ "1" /\
  classify asciiLower false nameLongS = Plain /\
  classify asciiLower false (upperLongS nameLongS) = Executable /\
  classify asciiLower false nameLongS <>
    classify asciiLower false (upperLongS nameLongS).
Proof.
  repeat split; try reflexivity. vm_compute. discriminate.
Qed.

(** ** Facts about the byte-wise order and sorting *)

Lemma ascii_compare_N (a b : ascii) :
  Ascii.compare a b = N.compare (N_of_ascii a) (N_of_ascii b).
Proof. reflexivity. Qed.

Lemma lebStr_trans (a b c : string) : lebStr a b -> lebStr b c -> lebStr a c.
Proof.
  unfold lebStr, String.leb. revert b c.
  induction a as [|x a IH]; intros [|y b] [|z c]; simpl; try easy.
  rewrite !ascii_compare_N.
  destruct (N.compare_spec (N_of_ascii x) (N_of_ascii y)) as [Exy|Lxy|Gxy];
  destruct (N.compare_spec (N_of_ascii y) (N_of_ascii z)) as [Eyz|Lyz|Gyz];
  destruct (N.compare_spec (N_of_ascii x) (N_of_ascii z)) as [Exz|Lxz|Gxz];
    try easy; try lia.
  apply IH.
Qed.

Lemma insertSorted_perm (s : string) (l : list string) :
  Permutation (s :: l) (insertSorted s l).
Proof.
  induction l as [|h t IH]; simpl; [apply Permutation_refl|].
  destruct (String.leb s h); [apply Permutation_refl|].
  eapply perm_trans; [apply perm_swap | apply perm_skip, IH].
Qed.

Lemma sortStrings_perm (l : list string) : Permutation l (sortStrings l).
Proof.
  induction l as [|h t IH]; simpl; [constructor|].
  eapply perm_trans; [apply perm_skip, IH | apply insertSorted_perm].
Qed.

Lemma insertSorted_sorted (s : string) (l : list string) :
  StronglySorted lebStr l -> StronglySorted lebStr (insertSorted s l).
Proof.
  induction 1 as [|h t Ht IH Hall]; simpl.
  - constructor; constructor.
  - destruct (String.leb s h) eqn:Hsh.
    + constructor; [constructor; assumption|].
      constructor; [exact Hsh|].
      eapply Forall_impl; [|exact Hall].
      intros x Hx. exact (lebStr_trans s h x Hsh Hx).
    + constructor; [exact IH|].
      assert (Hhs : lebStr h s).
      { destruct (String.leb_total s h) as [Hc|Hc]; [congruence | exact Hc]. }
      apply (Permutation_Forall (insertSorted_perm s t)).
      constructor; assumption.
Qed.

Lemma sortStrings_sorted (l : list string) :
  StronglySorted lebStr (sortStrings l).
Proof.
  induction l as [|h t IH]; simpl; [constructor|].
  apply insertSorted_sorted, IH.
Qed.

(** Two sorted lists with the same elements are the same list. *)
Lemma sorted_perm_eq (l1 l2 : list string) :
  StronglySorted lebStr l1 -> StronglySorted lebStr l2 ->
  Permutation l1 l2 -> l1 = l2.
Proof.
  intros H1. revert l2. induction H1 as [|a l1 Hs1 IH Ha]; intros l2 H2 Hp.
  - apply Permutation_nil in Hp. congruence.
  - destruct H2 as [|b l2 Hs2 Hb].
    + apply Permutation_sym, Permutation_nil in Hp. discriminate.
    + assert (Hab : a = b).
      { assert (Hin1 : In a (b :: l2)).
        { apply (Permutation_in a Hp). left. reflexivity. }
        assert (Hin2 : In b (a :: l1)).
        { apply (Permutation_in b (Permutation_sym Hp)). left. reflexivity. }
        destruct Hin1 as [->|Hin1]; [reflexivity|].
        destruct Hin2 as [->|Hin2]; [reflexivity|].
        rewrite Forall_forall in Ha, Hb.
        apply String.leb_antisym; [apply Ha, Hin2 | apply Hb, Hin1]. }
      subst b. f_equal. apply IH; [exact Hs2|].
      exact (Permutation_cons_inv Hp).
Qed.

(** Whatever the sorting algorithm, the result is [sortStrings]. *)
Lemma sortStrings_unique (l sorted : list string) :
  Permutation l sorted -> StronglySorted lebStr sorted ->
  sorted = sortStrings l.
Proof.
  intros Hp Hs. apply sorted_perm_eq; [exact Hs | apply sortStrings_sorted|].
  eapply perm_trans; [apply Permutation_sym, Hp | apply sortStrings_perm].
Qed.

(** The mask test of [isHidden] reads bit 1 of the attribute word. *)
Lemma land_hidden_testbit (attrs : Z) :
  negb (Z.land attrs FILE_ATTRIBUTE_HIDDEN =? 0) = Z.testbit attrs 1.
Proof.
  unfold FILE_ATTRIBUTE_HIDDEN.
  destruct (Z.testbit attrs 1) eqn:Hb.
  - apply negb_true_iff, Z.eqb_neq. intros Hz.
    assert (Ht : Z.testbit (Z.land attrs 2) 1 = true).
    { rewrite Z.land_spec, Hb. reflexivity. }
    rewrite Hz in Ht. discriminate.
  - apply negb_false_iff, Z.eqb_eq. apply Z.bits_inj'. intros n Hn.
    rewrite Z.land_spec, Z.bits_0.
    destruct (Z.eq_dec n 1) as [->|Hne]; [rewrite Hb; reflexivity|].
    replace (Z.testbit 2 n) with false; [apply andb_false_r|].
    symmetry. change 2 with (2 ^ 1). apply Z.pow2_bits_false. lia.
Qed.

Lemma keepEntry_visibleSpec (host : Host) (dir : string) (a : bool) (n : string) :
  keepEntry host dir a n = visibleSpec host dir a n.
Proof.
  unfold keepEntry, visibleSpec, isHidden, queryHidden.
  destruct a; cbn [negb orb]; [reflexivity|].
  destruct (Go.HasPrefix n "."); cbn [negb andb]; [reflexivity|].
  destruct (hasNUL (Join host dir n)); [reflexivity|].
  destruct (GetFileAttributes host (Join host dir n)) as [attrs|];
    cbn [option_map]; [|reflexivity].
  rewrite land_hidden_testbit. destruct (Z.testbit attrs 1); reflexivity.
Qed.

Lemma existsb_eqb_In (s : string) (l : list string) :
  existsb (fun n => (n =? s)%string) l = true <-> In s l.
Proof.
  rewrite existsb_exists. split.
  - intros [x [Hin Heq]]. apply String.eqb_eq in Heq. subst x. exact Hin.
  - intros Hin. exists s. split; [exact Hin | apply String.eqb_refl].
Qed.

Lemma addDotEntries_synthetic (a : bool) (names : list string) :
  addDotEntries a names = (names ++ syntheticSpec a names)%list.
Proof.
  unfold addDotEntries, syntheticSpec. destruct a; [|symmetry; apply app_nil_r].
  pose proof (existsb_eqb_In "." names) as Hd.
  pose proof (existsb_eqb_In ".." names) as Hdd.
  destruct (in_dec string_dec "." names) as [Hin1|Hin1];
    destruct (in_dec string_dec ".." names) as [Hin2|Hin2];
    destruct (existsb (fun n => (n =? ".")%string) names);
    destruct (existsb (fun n => (n =? "..")%string) names);
    cbn [negb]; rewrite ?app_nil_r, <- ?app_assoc; try reflexivity;
    solve [ exfalso; intuition congruence ].
Qed.

Lemma filter_all {A : Type} (f : A -> bool) (l : list A) :
  (forall x, f x = true) -> filter f l = l.
Proof.
  intros Hf. induction l as [|x l IH]; simpl; [reflexivity|].
  rewrite Hf, IH. reflexivity.
Qed.

Lemma syntheticSpec_NoDup (a : bool) (entries : list string) :
  NoDup entries -> NoDup (entries ++ syntheticSpec a entries).
Proof.
  intros Hnd. unfold syntheticSpec. destruct a; [|rewrite app_nil_r; exact Hnd].
  destruct (in_dec string_dec "." entries) as [H1|H1];
    destruct (in_dec string_dec ".." entries) as [H2|H2]; simpl;
    rewrite ?app_nil_r; try exact Hnd.
  - apply NoDup_app; [exact Hnd | repeat constructor; simpl; tauto |].
    intros x Hx [<-|[]]. exact (H2 Hx).
  - apply NoDup_app; [exact Hnd | repeat constructor; simpl; tauto |].
    intros x Hx [<-|[]]. exact (H1 Hx).
  - apply NoDup_app; [exact Hnd | |].
    + repeat constructor; simpl; [intros [Heq|[]]; discriminate | tauto].
    + intros x Hx [<-|[<-|[]]]; [exact (H1 Hx) | exact (H2 Hx)].
Qed.

(** ** Properties of the Entry Collector *)

Section CollectorProperties.

Variable host : Host.

Lemma collect_unsorted (dir : string) (showHidden : bool) (entries : list string) :
  addDotEntries showHidden (filter (keepEntry host dir showHidden) entries) =
  (filter (visibleSpec host dir showHidden) entries
     ++ syntheticSpec showHidden entries)%list.
Proof.
  rewrite addDotEntries_synthetic.
  rewrite (filter_ext _ _ (keepEntry_visibleSpec host dir showHidden)).
  f_equal. destruct showHidden; [|reflexivity].
  rewrite filter_all; reflexivity.
Qed.

(** C1.  For every directory listing [entries], directory [dir] and value
    of [showHidden], the collected names are a rearrangement of the
    children that pass the visibility rule followed by the synthetic names
    (so a name is collected exactly when it is a visible child or, with
    [showHidden], [.] or [..]); they have no duplicates when the children
    have none; and they are in ascending byte-wise order, being the one
    sorted list of the filtered names with the synthetic ones added. *)
Theorem collectNames_filtered_sorted
    (dir : string) (showHidden : bool) (entries : list string) :
  let visible := filter (visibleSpec host dir showHidden) entries in
  let names := collectNames host dir showHidden entries in
  Permutation (visible ++ syntheticSpec showHidden entries) names /\
  (forall n : string,
     In n names <->
     (In n entries /\ visibleSpec host dir showHidden n = true) \/
     (showHidden = true /\ (n = "." \/ n = ".."))) /\
  (NoDup entries -> NoDup names) /\
  StronglySorted lebStr names /\
  (forall sorted : list string,
     Permutation (visible ++ syntheticSpec showHidden entries) sorted ->
     StronglySorted lebStr sorted -> sorted = names).
Proof.
  intros visible names.
  assert (Hperm : Permutation (visible ++ syntheticSpec showHidden entries) names).
  { unfold names, collectNames. rewrite collect_unsorted. apply sortStrings_perm. }
  split; [exact Hperm|]. split; [|split; [|split]].
  - intros n. split.
    + intros Hin. apply (Permutation_in n (Permutation_sym Hperm)) in Hin.
      apply in_app_or in Hin as [Hin|Hin].
      * left. apply filter_In in Hin. exact Hin.
      * right. unfold syntheticSpec in Hin. destruct showHidden; [|destruct Hin].
        split; [reflexivity|].
        apply in_app_or in Hin as [Hin|Hin].
        -- destruct (in_dec string_dec "." entries); [destruct Hin|].
           destruct Hin as [<-|[]]. left. reflexivity.
        -- destruct (in_dec string_dec ".." entries); [destruct Hin|].
           destruct Hin as [<-|[]]. right. reflexivity.
    + intros Hn. apply (Permutation_in n Hperm). apply in_or_app.
      destruct Hn as [[Hin Hv]|[-> Hn]].
      * left. apply filter_In. split; assumption.
      * unfold visible, syntheticSpec. rewrite filter_all; [|reflexivity].
        destruct Hn as [->| ->].
        -- destruct (in_dec string_dec "." entries) as [Hi|Hi];
             [left; exact Hi | right; left; reflexivity].
        -- destruct (in_dec string_dec ".." entries) as [Hi|Hi];
             [left; exact Hi | right; apply in_or_app; right; left; reflexivity].
  - intros Hnd. apply (Permutation_NoDup Hperm). unfold visible.
    destruct showHidden.
    + rewrite filter_all; [|reflexivity]. apply syntheticSpec_NoDup, Hnd.
    + unfold syntheticSpec. rewrite app_nil_r. apply NoDup_filter, Hnd.
  - apply sortStrings_sorted.
  - intros sorted Hp Hs. unfold names, collectNames. rewrite collect_unsorted.
    apply sortStrings_unique; assumption.
Qed.

End CollectorProperties.

(** The directory of the specification's scenario, listed with [-a]. *)
Lemma collectNames_filtered_sorted_witness :
  collectNames demoHost "." true [".secret"; "A.EXE"; "b.txt"] =
    ["."; ".."; ".secret"; "A.EXE"; "b.txt"] /\
  collectNames demoHost "." false [".secret"; "A.EXE"; "b.txt"] =
    ["A.EXE"; "b.txt"] /\
  NoDup (collectNames demoHost "." true [".secret"; "A.EXE"; "b.txt"]).
Proof.
  split; [reflexivity|]. split; [reflexivity|].
  destruct (collectNames_filtered_sorted demoHost "." true
              [".secret"; "A.EXE"; "b.txt"]) as [_ [_ [Hnodup _]]].
  apply Hnodup.
  repeat constructor; simpl; intuition discriminate.
Defined.

(** ** Facts about the output streams *)

Lemma append_assoc (a b c : string) : (a ++ b) ++ c = a ++ (b ++ c).
Proof.
  induction a as [|x a IH]; simpl; [reflexivity|]. rewrite IH. reflexivity.
Qed.

Lemma append_nil_r (a : string) : a ++ "" = a.
Proof.
  induction a as [|x a IH]; simpl; [reflexivity|]. rewrite IH. reflexivity.
Qed.

Lemma emit_emit (o1 e1 o2 e2 : string) (st : Streams) :
  emit o2 e2 (emit o1 e1 st) = emit (o1 ++ o2) (e1 ++ e2) st.
Proof. unfold emit. simpl. rewrite !append_assoc. reflexivity. Qed.

Lemma emit_nothing (st : Streams) : emit "" "" st = st.
Proof. destruct st as [o e]. unfold emit. simpl. rewrite !append_nil_r. reflexivity. Qed.

Lemma Print_emit (s : string) (st : Streams) : Print s st = emit s "" st.
Proof. unfold Print, emit. rewrite append_nil_r. reflexivity. Qed.


(** A loop whose body only writes, writes the concatenation. *)
Lemma fold_left_emit {A : Type} (f : Streams -> A -> Streams)
    (o e : A -> string) (l : list A) :
  (forall st x, f st x = emit (o x) (e x) st) ->
  forall st, fold_left f l st = emit (joinAll (map o l)) (joinAll (map e l)) st.
Proof.
  intros Hf. induction l as [|x l IH]; intros st; simpl.
  - symmetry. apply emit_nothing.
  - rewrite IH, Hf, emit_emit. reflexivity.
Qed.

Lemma joinAll_nil_all {A : Type} (l : list A) :
  joinAll (map (fun _ => EmptyString) l) = EmptyString.
Proof. induction l as [|x l IH]; simpl; [reflexivity | exact IH]. Qed.

Lemma fold_left_Print {A : Type} (f : Streams -> A -> Streams)
    (o : A -> string) (l : list A) :
  (forall st x, f st x = Print (o x) st) ->
  forall st, fold_left f l st = Print (joinAll (map o l)) st.
Proof.
  intros Hf st.
  rewrite (fold_left_emit f o (fun _ => EmptyString)).
  - rewrite joinAll_nil_all, Print_emit. reflexivity.
  - intros st' x. rewrite Hf, Print_emit. reflexivity.
Qed.


(** ** Properties of the long format *)

(** A decorated name holds the name. *)
Lemma colorName_holds_name (mapLower : string -> string) (name path : string)
    (fi : option FileInfo) :
  exists before after : string,
    colorName mapLower name path fi = before ++ name ++ after.
Proof.
  assert (Hwrap : forall code, exists before after : string,
            colorWrap code name = before ++ name ++ after).
  { intros code. exists (esc ++ "[" ++ decimal code ++ "m"), (esc ++ "[0m").
    unfold colorWrap. rewrite !append_assoc. reflexivity. }
  assert (Hplain : exists before after : string, name = before ++ name ++ after).
  { exists EmptyString, EmptyString. simpl. symmetry. apply append_nil_r. }
  unfold colorName, blue, green, red, magenta, cyan.
  destruct fi as [fi|]; [|exact Hplain].
  destruct (IsDir fi); [apply Hwrap|].
  destruct (isExecutable _); [apply Hwrap|].
  destruct (isArchive _); [apply Hwrap|].
  destruct (isImageOrVideo _); [apply Hwrap|].
  destruct (isAudio _); [apply Hwrap | exact Hplain].
Qed.

Section LongFormat.

Variable host : Host.




End LongFormat.


(** ** Properties of the grid output *)

Section GridOutput.

Variable host : Host.

Lemma printCell_Print (dir : string) (names : list string) (width r c : Z)
    (st : Streams) :
  printCell host dir names width r c st =
  Print (cellText host dir names width r c) st.
Proof.
  unfold cellText, printCell.
  destruct (cellIndex names width r c) as [idx|].
  - destruct ((c =? cols names width - 1)
              || (c * rows names width + r + rows names width >=? count names)).
    + reflexivity.
    + rewrite !Print_emit, !emit_emit. reflexivity.
  - rewrite Print_emit. symmetry. apply emit_nothing.
Qed.

Lemma printRow_Print (dir : string) (names : list string) (width r : Z)
    (st : Streams) :
  printRow host dir names width r st =
  Print (joinAll (map (cellText host dir names width r)
                    (upto (cols names width))) ++ nl) st.
Proof.
  unfold printRow, Println.
  rewrite (fold_left_Print _ (cellText host dir names width r)).
  - rewrite !Print_emit, emit_emit. reflexivity.
  - intros st' c. apply printCell_Print.
Qed.

Lemma gridListing_Print (dir : string) (names : list string) (width : Z)
    (st : Streams) :
  gridListing host dir names width st =
  Print (gridText host dir names width) st.
Proof.
  unfold gridListing, gridText. destruct (maxLen names =? 0).
  - rewrite Print_emit. symmetry. apply emit_nothing.
  - apply (fold_left_Print (fun st r => printRow host dir names width r st)).
    intros st' r. apply printRow_Print.
Qed.

Lemma cellText_entry (dir : string) (names : list string) (width r c idx : Z) :
  cellIndex names width r c = Some idx ->
  cellText host dir names width r c =
  colorName (hostMapLower host) (entryAt names idx)
    (Join host dir (entryAt names idx))
    (statInfo host (Join host dir (entryAt names idx)))
  ++ (if lastInRow names width r c then EmptyString
      else Go.spaces (Z.to_nat (colWidth names - Go.len (entryAt names idx)))).
Proof.
  intros Hc. unfold cellText, printCell, lastInRow. rewrite Hc.
  destruct ((c =? cols names width - 1)
            || (c * rows names width + r + rows names width >=? count names));
    simpl.
  - rewrite append_nil_r. reflexivity.
  - f_equal. f_equal.
    destruct (Z.ltb_spec (colWidth names - Go.len (entryAt names idx)) 0);
      [|reflexivity].
    replace (Z.to_nat (colWidth names - Go.len (entryAt names idx)))
      with (Z.to_nat 0) by lia.
    reflexivity.
Qed.

(** C10.  In grid mode nothing is ever written to standard error, and
    standard output receives, row by row, the text of each cell followed by
    a line end per row.  A cell whose entry cannot be examined prints the
    bare name (followed by the padding of its column unless it is the last
    of its row): [colorName] returns the name itself without file
    information.  The text of a cell depends on the result of [os.Stat] for
    its own entry only, so the other cells are printed as if nothing had
    failed. *)
Theorem gridListing_ignores_stat_failure :
  (forall (dir : string) (names : list string) (width : Z) (st : Streams),
     err (gridListing host dir names width st) = err st /\
     out (gridListing host dir names width st) =
       out st ++ gridText host dir names width) /\
  (forall name path : string,
     colorName (hostMapLower host) name path None = name) /\
  (forall (dir : string) (names : list string) (width r c idx : Z) (e : string),
     cellIndex names width r c = Some idx ->
     Stat host (Join host dir (entryAt names idx)) = Err e ->
     cellText host dir names width r c =
     entryAt names idx
     ++ (if lastInRow names width r c then EmptyString
         else Go.spaces (Z.to_nat (colWidth names - Go.len (entryAt names idx))))) /\
  (forall (other : Host) (dir : string) (names : list string) (width r c : Z),
     hostMapLower other = hostMapLower host ->
     Join other = Join host ->
     (forall idx : Z,
        cellIndex names width r c = Some idx ->
        Stat other (Join host dir (entryAt names idx)) =
        Stat host (Join host dir (entryAt names idx))) ->
     cellText other dir names width r c = cellText host dir names width r c).
Proof.
  split; [|split; [|split]].
  - intros dir names width st. rewrite gridListing_Print. split; reflexivity.
  - reflexivity.
  - intros dir names width r c idx e Hc He.
    rewrite (cellText_entry dir names width r c idx Hc).
    unfold statInfo. rewrite He. reflexivity.
  - intros other dir names width r c Hm Hj Hs.
    unfold cellText, printCell.
    destruct (cellIndex names width r c) as [idx|]; [|reflexivity].
    unfold statInfo. rewrite Hm, Hj, (Hs idx eq_refl). reflexivity.
Qed.

End GridOutput.

(** The grid of the demonstration directory: [gone.mp3] cannot be
    examined, and its cell holds the bare name and the padding. *)
Lemma gridListing_ignores_stat_failure_witness :
  cellIndex ["docs"; "gone.mp3"; "setup.EXE"] 80 0 1 = Some 1 /\
  cellText demoHost "." ["docs"; "gone.mp3"; "setup.EXE"] 80 0 1 =
    "gone.mp3   " /\
  err (streams (main demoHost [])) = "".
Proof.
  destruct (gridListing_ignores_stat_failure demoHost) as [_ [_ [Hfail _]]].
  split; [reflexivity|]. split; [|reflexivity].
  apply (Hfail "." ["docs"; "gone.mp3"; "setup.EXE"] 80 0 1 1 "file vanished");
    reflexivity.
Defined.

(** ** Properties of the exit code *)

Lemma expandArg_not_dash (d : string) :
  Go.HasPrefix d "-" = false -> expandArg d = [d] /\ flagStep d = NotFlag.
Proof.
  intros Hd. split.
  - unfold expandArg. rewrite Hd. reflexivity.
  - destruct d as [|c0 [|c1 r]]; try reflexivity.
    unfold Go.HasPrefix in Hd.
    change (prefix "-" (String c0 (String c1 r)))
      with (if ascii_dec "-" c0 then prefix "" (String c1 r) else false) in Hd.
    unfold flagStep. destruct (Ascii.eqb_spec c0 "-") as [->|Hne];
      [|reflexivity].
    destruct (ascii_dec "-" "-"); [discriminate Hd | congruence].
Qed.

Section ExitCode.

Variable host : Host.

(** C7, as the code has it.  The run ends with exit code 2 exactly when
    package [flag] rejects the normalised arguments (before any directory
    is read), with exit code 1 exactly when the target directory is read
    and the read fails, and with exit code 0 in every other case.  Nothing
    is written to standard output when the exit code is 1 or 2.  An empty
    directory listed without flags gives no output at all and exit
    code 0. *)
Theorem main_exit_code (args : list string) :
  (exitCode (main host args) = 2 <-> flagsRejected args = true) /\
  (exitCode (main host args) = 1 <-> readFails host args = true) /\
  (exitCode (main host args) = 0 <->
     flagsRejected args = false /\ readFails host args = false) /\
  (exitCode (main host args) <> 0 -> out (streams (main host args)) = "") /\
  (ReadDir host "." = Ok [] -> main host [] = mkOutcome noOutput 0) /\
  (forall d : string,
     Go.HasPrefix d "-" = false -> ReadDir host d = Ok [] ->
     main host [d] = mkOutcome noOutput 0).
Proof.
  unfold main, flagsRejected, readFails.
  repeat split.
  - destruct (parseFlags false false (normalizedArgs args)) as [l a rest| |];
      simpl; try discriminate; try reflexivity.
    destruct (ReadDir host (targetDir rest)); [destruct l|]; simpl; discriminate.
  - destruct (parseFlags false false (normalizedArgs args)) as [l a rest| |];
      simpl; try discriminate; try reflexivity.
  - destruct (parseFlags false false (normalizedArgs args)) as [l a rest| |];
      simpl; try discriminate.
    destruct (ReadDir host (targetDir rest)); [destruct l|]; simpl;
      try discriminate; reflexivity.
  - destruct (parseFlags false false (normalizedArgs args)) as [l a rest| |];
      simpl; try discriminate.
    destruct (ReadDir host (targetDir rest)); [discriminate | reflexivity].
  - destruct (parseFlags false false (normalizedArgs args)) as [l a rest| |];
      simpl; try discriminate; reflexivity.
  - destruct (parseFlags false false (normalizedArgs args)) as [l a rest| |];
      simpl; try discriminate; try reflexivity.
    destruct (ReadDir host (targetDir rest)); [reflexivity|].
    simpl. discriminate.
  - destruct (parseFlags false false (normalizedArgs args)) as [l a rest| |];
      simpl; try reflexivity; intros [H1 H2]; try discriminate.
    destruct (ReadDir host (targetDir rest)); [destruct l; reflexivity|].
    discriminate.
  - destruct (parseFlags false false (normalizedArgs args)) as [l a rest| |];
      simpl; try reflexivity; try congruence.
    destruct (ReadDir host (targetDir rest)); [destruct l|]; simpl;
      try reflexivity; congruence.
  - intros Hr. simpl. rewrite Hr. reflexivity.
  - intros d Hd Hr. destruct (expandArg_not_dash d Hd) as [He Hf].
    unfold normalizedArgs, expandCombinedFlags. simpl.
    rewrite He. simpl. rewrite Hf. simpl. rewrite Hr. reflexivity.
Qed.

End ExitCode.

(** An empty directory, no flags: no output and exit code 0. *)
Lemma main_exit_code_witness :
  main emptyHost [] = mkOutcome noOutput 0 /\
  main emptyHost ["work"] = mkOutcome noOutput 0.
Proof.
  destruct (main_exit_code emptyHost []) as [_ [_ [_ [_ [Hempty Hdir]]]]].
  split; [apply Hempty | apply Hdir]; reflexivity.
Defined.

(** C7, counterexample.  On the argument [-x] package [flag] finds an
    undefined flag: the run ends with exit code 2 although no directory
    read failed, where the specification has exit code 0. *)
Lemma main_exit_code_undefined_flag :
  readFails demoHost ["-x"] = false /\
  exitCode (main demoHost ["-x"]) = 2 /\
  exitCode (main demoHost ["-x"]) <> exitCodeSpec demoHost ["-x"].
Proof.
  split; [reflexivity|]. split; [reflexivity|]. vm_compute. discriminate.
Qed.

(** ** Facts about the layout arithmetic *)

Lemma len_nonneg (s : string) : 0 <= Go.len s.
Proof. unfold Go.len. lia. Qed.

Lemma count_nonneg (names : list string) : 0 <= count names.
Proof. unfold count. lia. Qed.

Lemma maxLenSpec_nonneg (names : list string) : 0 <= maxLenSpec names.
Proof. unfold maxLenSpec. induction names; simpl; lia. Qed.

Lemma maxLen_fold (names : list string) (m : Z) :
  0 <= m ->
  fold_left (fun m n => if m <? Go.len n then Go.len n else m) names m =
  Z.max m (maxLenSpec names).
Proof.
  revert m. induction names as [|n names IH]; intros m Hm; simpl.
  - unfold maxLenSpec. simpl. lia.
  - pose proof (len_nonneg n) as Hn.
    rewrite IH by (destruct (Z.ltb_spec m (Go.len n)); lia).
    unfold maxLenSpec. simpl.
    destruct (Z.ltb_spec m (Go.len n)); lia.
Qed.

(** The loop computes the longest length. *)
Lemma maxLen_spec (names : list string) : maxLen names = maxLenSpec names.
Proof.
  unfold maxLen. rewrite maxLen_fold by lia.
  pose proof (maxLenSpec_nonneg names). lia.
Qed.

(** Truncating division and the test [cols < 1] give
    [max(1, floor(width / colWidth))], also for a width that is not
    positive. *)
Lemma cols_spec (names : list string) (width : Z) :
  cols names width = Z.max 1 (width / colWidth names).
Proof.
  unfold cols, colWidth. rewrite maxLen_spec.
  pose proof (maxLenSpec_nonneg names) as Hm.
  set (cw := maxLenSpec names + 2). assert (Hcw : 0 < cw) by (unfold cw; lia).
  destruct (Z.le_gt_cases 0 width) as [Hw|Hw].
  - rewrite (Z.quot_div_nonneg width cw Hw Hcw).
    destruct (Z.ltb_spec (width / cw) 1); lia.
  - assert (Hq : Z.quot width cw <= 0).
    { apply Z.quot_le_upper_bound; lia. }
    assert (Hd : width / cw < 0) by (apply Z.div_lt_upper_bound; lia).
    destruct (Z.ltb_spec (Z.quot width cw) 1); lia.
Qed.

Lemma cols_pos (names : list string) (width : Z) : 1 <= cols names width.
Proof. rewrite cols_spec. lia. Qed.

(** [rows] is the least number of rows whose cells hold all entries. *)
Lemma rows_bounds (names : list string) (width : Z) :
  cols names width * (rows names width - 1) < count names /\
  count names <= cols names width * rows names width.
Proof.
  pose proof (cols_pos names width) as Hc. pose proof (count_nonneg names) as Hn.
  unfold rows. set (k := cols names width) in *. set (n := count names) in *.
  rewrite Z.quot_div_nonneg by lia.
  pose proof (Z.div_mod (n + k - 1) k ltac:(lia)) as Hdm.
  pose proof (Z.mod_pos_bound (n + k - 1) k ltac:(lia)) as Hmb.
  split; nia.
Qed.

Lemma rows_ceil (names : list string) (width : Z) :
  rows names width = ceilDiv (count names) (cols names width).
Proof.
  pose proof (cols_pos names width) as Hc.
  destruct (rows_bounds names width) as [Hlo Hhi].
  unfold ceilDiv. set (k := cols names width) in *. set (n := count names) in *.
  pose proof (Z.div_mod (- n) k ltac:(lia)) as Hdm.
  pose proof (Z.mod_pos_bound (- n) k ltac:(lia)) as Hmb.
  nia.
Qed.

Lemma rows_nonneg (names : list string) (width : Z) : 0 <= rows names width.
Proof.
  pose proof (cols_pos names width). pose proof (count_nonneg names).
  destruct (rows_bounds names width). nia.
Qed.

Lemma rows_pos (names : list string) (width : Z) :
  0 < count names -> 1 <= rows names width.
Proof.
  intros Hn. pose proof (cols_pos names width).
  destruct (rows_bounds names width). nia.
Qed.

Lemma cellIndex_spec (names : list string) (width r c : Z) :
  cellIndex names width r c =
  if c * rows names width + r <? count names
  then Some (c * rows names width + r) else None.
Proof.
  unfold cellIndex.
  destruct (Z.geb_spec (c * rows names width + r) (count names));
    destruct (Z.ltb_spec (c * rows names width + r) (count names));
    try lia; reflexivity.
Qed.

(** ** Facts about walking through the grid *)

Lemma upto_succ (k : nat) :
  upto (Z.of_nat (S k)) = (upto (Z.of_nat k) ++ [Z.of_nat k])%list.
Proof.
  unfold upto. rewrite !Nat2Z.id, seq_S, map_app. reflexivity.
Qed.

Lemma upto_add (a b : nat) :
  upto (Z.of_nat (a + b)) =
  (upto (Z.of_nat a) ++ map (fun r => Z.of_nat a + r) (upto (Z.of_nat b)))%list.
Proof.
  induction b as [|b IH].
  - rewrite Nat.add_0_r. simpl. rewrite app_nil_r. reflexivity.
  - rewrite Nat.add_succ_r, !upto_succ, IH, map_app, app_assoc. simpl.
    rewrite Nat2Z.inj_add. reflexivity.
Qed.

Lemma flat_map_map {A B C : Type} (f : B -> list C) (h : A -> B) (l : list A) :
  flat_map f (map h l) = flat_map (fun x => f (h x)) l.
Proof.
  induction l as [|x l IH]; simpl; [reflexivity|]. rewrite IH. reflexivity.
Qed.

Lemma flat_map_singleton {A B : Type} (f : A -> B) (l : list A) :
  flat_map (fun x => [f x]) l = map f l.
Proof.
  induction l as [|x l IH]; simpl; [reflexivity|]. rewrite IH. reflexivity.
Qed.

Lemma flat_map_grid {A : Type} (g : Z -> list A) (k R : nat) :
  flat_map (fun c => flat_map (fun r => g (c * Z.of_nat R + r)) (upto (Z.of_nat R)))
    (upto (Z.of_nat k)) =
  flat_map g (upto (Z.of_nat (k * R))).
Proof.
  induction k as [|k IH].
  - reflexivity.
  - rewrite upto_succ, flat_map_app, IH. simpl flat_map at 2. rewrite app_nil_r.
    replace (S k * R)%nat with (k * R + R)%nat by lia.
    rewrite upto_add, flat_map_app, flat_map_map. f_equal.
    apply flat_map_ext. intros r. rewrite Nat2Z.inj_mul. reflexivity.
Qed.

Lemma in_upto (k i : Z) : In i (upto k) <-> 0 <= i < k.
Proof.
  unfold upto. rewrite in_map_iff. split.
  - intros [x [<- Hin]]. apply in_seq in Hin. lia.
  - intros Hi. exists (Z.to_nat i). split; [lia|]. apply in_seq. lia.
Qed.

Lemma flat_map_ext_in {A B : Type} (f g : A -> list B) (l : list A) :
  (forall x, In x l -> f x = g x) -> flat_map f l = flat_map g l.
Proof.
  intros Hfg. induction l as [|x l IH]; simpl; [reflexivity|].
  rewrite (Hfg x (or_introl eq_refl)), IH; [reflexivity|].
  intros y Hy. apply Hfg. right. exact Hy.
Qed.

Lemma entries_upto (names : list string) :
  flat_map (fun i => [entryAt names i]) (upto (count names)) = names.
Proof.
  unfold count. induction names as [|n names IH] using rev_ind; [reflexivity|].
  rewrite length_app. simpl List.length.
  rewrite Nat.add_1_r, upto_succ, flat_map_app. simpl.
  unfold entryAt at 2. rewrite Nat2Z.id, nth_middle. f_equal.
  rewrite <- IH at 2. apply flat_map_ext_in. intros i Hi.
  apply in_upto in Hi. unfold entryAt. rewrite app_nth1 by lia. reflexivity.
Qed.

Lemma cellNames_upto (names : list string) (m : nat) :
  (List.length names <= m)%nat ->
  flat_map (cellNames names) (upto (Z.of_nat m)) = names.
Proof.
  intros Hm. replace m with (List.length names + (m - List.length names))%nat by lia.
  rewrite upto_add, flat_map_app, flat_map_map.
  rewrite <- (app_nil_r names) at 4. f_equal.
  - rewrite <- (entries_upto names) at 3. apply flat_map_ext_in. intros i Hi.
    apply in_upto in Hi. unfold cellNames, count in *.
    destruct (Z.geb_spec i (Z.of_nat (List.length names))); [lia | reflexivity].
  - rewrite (flat_map_ext_in _ (fun _ => [])).
    + induction (upto _); simpl; auto.
    + intros r Hr. apply in_upto in Hr. unfold cellNames, count.
      destruct (Z.geb_spec (Z.of_nat (List.length names) + r)
                  (Z.of_nat (List.length names))); [reflexivity | lia].
Qed.

Lemma readColumns_names (names : list string) (width : Z) :
  readColumns names width = names.
Proof.
  unfold readColumns.
  pose proof (rows_nonneg names width) as Hr.
  pose proof (cols_pos names width) as Hc.
  destruct (rows_bounds names width) as [_ Hhi].
  transitivity
    (flat_map (fun c =>
       flat_map (fun r => cellNames names (c * rows names width + r))
         (upto (rows names width)))
       (upto (cols names width))).
  { apply flat_map_ext. intros c. apply flat_map_ext. intros r.
    unfold cellIndex, cellNames.
    destruct (c * rows names width + r >=? count names); reflexivity. }
  assert (HR : rows names width = Z.of_nat (Z.to_nat (rows names width))) by lia.
  assert (HK : cols names width = Z.of_nat (Z.to_nat (cols names width))) by lia.
  rewrite HR, HK, flat_map_grid.
  apply cellNames_upto. unfold count in Hhi. nia.
Qed.

Lemma flat_map_nil_all {A B : Type} (l : list A) :
  flat_map (fun _ : A => @nil B) l = [].
Proof. induction l as [|x l IH]; simpl; [reflexivity | exact IH]. Qed.

Lemma flat_map_app_perm {A B : Type} (g h : A -> list B) (l : list A) :
  Permutation (flat_map (fun x => g x ++ h x)%list l)
              (flat_map g l ++ flat_map h l)%list.
Proof.
  induction l as [|x l IH]; simpl; [constructor|].
  rewrite <- !app_assoc. apply Permutation_app_head.
  eapply perm_trans; [apply Permutation_app_head, IH|].
  apply Permutation_app_swap_app.
Qed.

Lemma flat_map_swap {A B C : Type} (f : A -> B -> list C)
    (rs : list A) (cs : list B) :
  Permutation (flat_map (fun r => flat_map (fun c => f r c) cs) rs)
              (flat_map (fun c => flat_map (fun r => f r c) rs) cs).
Proof.
  induction rs as [|r rs IH]; simpl.
  - rewrite flat_map_nil_all. constructor.
  - eapply perm_trans; [apply Permutation_app_head, IH|].
    apply Permutation_sym. apply (flat_map_app_perm (f r)).
Qed.

Lemma cell_of_index (names : list string) (width i : Z) :
  0 <= i < count names ->
  exists r c : Z,
    (0 <= r < rows names width /\ 0 <= c < cols names width /\
     cellIndex names width r c = Some i) /\
    (forall r' c' : Z,
       0 <= r' < rows names width -> 0 <= c' < cols names width ->
       cellIndex names width r' c' = Some i -> r' = r /\ c' = c).
Proof.
  intros Hi.
  assert (HR : 1 <= rows names width) by (apply rows_pos; lia).
  destruct (rows_bounds names width) as [_ Hhi].
  pose proof (Z.div_mod i (rows names width) ltac:(lia)) as Hdm.
  pose proof (Z.mod_pos_bound i (rows names width) ltac:(lia)) as Hmb.
  exists (i mod rows names width), (i / rows names width). split.
  - split; [lia|]. split.
    + split; [apply Z.div_pos; lia|]. apply Z.div_lt_upper_bound; nia.
    + rewrite cellIndex_spec.
      replace (i / rows names width * rows names width + i mod rows names width)
        with i by lia.
      destruct (Z.ltb_spec i (count names)); [reflexivity | lia].
  - intros r' c' Hr' Hc' Hcell. rewrite cellIndex_spec in Hcell.
    destruct (c' * rows names width + r' <? count names); [|discriminate].
    injection Hcell as Hcell.
    assert (c' = i / rows names width).
    { apply (Z.div_unique i (rows names width) c' r'); lia. }
    split; [|assumption]. nia.
Qed.

(** ** Properties of the grid layout *)

Lemma cellText_spec (host : Host) (dir : string) (names : list string)
    (width r c : Z) :
  cellText host dir names width r c =
  match cellIndex names width r c with
  | Some idx => paddedName host dir names width r c idx
  | None => EmptyString
  end.
Proof.
  destruct (cellIndex names width r c) as [idx|] eqn:Hc.
  - exact (cellText_entry host dir names width r c idx Hc).
  - unfold cellText, printCell. rewrite Hc. reflexivity.
Qed.

Lemma entryNames_maxLen (names : list string) :
  names <> [] -> entryNames names -> 0 < maxLen names.
Proof.
  intros Hne Hall. destruct names as [|n t]; [contradiction|].
  inversion Hall as [|x l Hn _]; subst.
  rewrite maxLen_spec. unfold maxLenSpec. simpl.
  assert (0 < Go.len n) by (destruct n; [contradiction | unfold Go.len; simpl; lia]).
  lia.
Qed.

(** The lists of names [main] lays out are lists of entry names. *)
Lemma collectNames_entryNames (host : Host) (dir : string) (allFlag : bool)
    (entries : list string) :
  entryNames entries -> entryNames (collectNames host dir allFlag entries).
Proof.
  unfold entryNames, collectNames. intros Hall.
  apply (Permutation_Forall (sortStrings_perm _)).
  rewrite addDotEntries_synthetic. apply Forall_app. split.
  - apply Forall_forall. intros n Hin. apply filter_In in Hin as [Hin _].
    rewrite Forall_forall in Hall. exact (Hall n Hin).
  - apply Forall_forall. intros n Hin. unfold syntheticSpec in Hin.
    destruct allFlag; [|destruct Hin].
    apply in_app_or in Hin as [Hin|Hin];
      match type of Hin with
      | In _ (if ?b then _ else _) => destruct b
      end; simpl in Hin; intuition (subst; discriminate).
Qed.

Lemma gridListing_rows (host : Host) (dir : string) (names : list string)
    (width : Z) (st : Streams) :
  0 < maxLen names ->
  gridListing host dir names width st =
  Print (joinAll (map (fun r => rowText host dir names width r ++ nl)
                    (upto (rows names width)))) st.
Proof.
  intros Hm. rewrite gridListing_Print. unfold gridText, rowText.
  destruct (Z.eqb_spec (maxLen names) 0); [lia | reflexivity].
Qed.

Lemma flat_map_below {A : Type} (T : Z -> A) (n m : nat) :
  (n <= m)%nat ->
  flat_map (fun idx => if idx >=? Z.of_nat n then [] else [T idx])
    (upto (Z.of_nat m)) =
  map T (upto (Z.of_nat n)).
Proof.
  intros Hnm. replace m with (n + (m - n))%nat by lia.
  rewrite upto_add, flat_map_app, flat_map_map.
  rewrite <- (app_nil_r (map T _)). f_equal.
  - rewrite <- flat_map_singleton. apply flat_map_ext_in. intros i Hi.
    apply in_upto in Hi. destruct (Z.geb_spec i (Z.of_nat n)); [lia | reflexivity].
  - transitivity (flat_map (fun _ : Z => @nil A) (upto (Z.of_nat (m - n))));
      [|apply flat_map_nil_all].
    apply flat_map_ext_in. intros i Hi. apply in_upto in Hi.
    destruct (Z.geb_spec (Z.of_nat n + i) (Z.of_nat n)); [reflexivity | lia].
Qed.

Lemma columnTexts_sorted (host : Host) (dir : string) (names : list string)
    (width : Z) :
  columnTexts host dir names width =
  map (fun idx => paddedName host dir names width
                    (idx mod rows names width) (idx / rows names width) idx)
    (upto (count names)).
Proof.
  unfold columnTexts.
  pose proof (rows_nonneg names width) as Hr.
  pose proof (cols_pos names width) as Hc.
  destruct (rows_bounds names width) as [_ Hhi].
  set (T := fun idx => paddedName host dir names width
                    (idx mod rows names width) (idx / rows names width) idx).
  transitivity
    (flat_map (fun c =>
       flat_map (fun r =>
         (fun idx => if idx >=? count names then [] else [T idx])
           (c * Z.of_nat (Z.to_nat (rows names width)) + r))
         (upto (Z.of_nat (Z.to_nat (rows names width)))))
       (upto (Z.of_nat (Z.to_nat (cols names width))))).
  - rewrite !Z2Nat.id by lia.
    apply flat_map_ext_in. intros c Hcin. apply in_upto in Hcin.
    apply flat_map_ext_in. intros r Hrin. apply in_upto in Hrin.
    rewrite cellText_spec, cellIndex_spec.
    destruct (Z.ltb_spec (c * rows names width + r) (count names));
      destruct (Z.geb_spec (c * rows names width + r) (count names));
      try lia; [|reflexivity].
    unfold T. f_equal. f_equal.
    + symmetry. rewrite Z.add_comm, Z.mod_add by lia. apply Z.mod_small. lia.
    + symmetry. rewrite Z.add_comm, Z.div_add by lia.
      rewrite Z.div_small by lia. lia.
  - rewrite (flat_map_grid (fun idx => if idx >=? count names then [] else [T idx])).
    unfold count. apply flat_map_below. unfold count in Hhi. nia.
Qed.

Lemma readRows_perm (names : list string) (width : Z) :
  Permutation (readRows names width) names.
Proof.
  rewrite <- (readColumns_names names width) at 2.
  unfold readRows, readColumns.
  apply (flat_map_swap
           (fun r c => match cellIndex names width r c with
                       | Some idx => [entryAt names idx]
                       | None => []
                       end)).
Qed.

Lemma rowText_cells (host : Host) (dir : string) (names : list string)
    (width r : Z) :
  rowText host dir names width r =
  joinAll (map (fun c =>
                  if c * rows names width + r <? count names
                  then paddedName host dir names width r c
                         (c * rows names width + r)
                  else EmptyString)
             (upto (cols names width))).
Proof.
  unfold rowText. f_equal. apply map_ext. intros c.
  rewrite cellText_spec, cellIndex_spec.
  destruct (c * rows names width + r <? count names); reflexivity.
Qed.

Lemma append_empty (a b : string) :
  a ++ b = EmptyString -> a = EmptyString /\ b = EmptyString.
Proof. destruct a; simpl; [intros ->; split; reflexivity | discriminate]. Qed.

Lemma entryAt_entryNames (names : list string) (idx : Z) :
  entryNames names -> 0 <= idx < count names ->
  entryAt names idx <> EmptyString.
Proof.
  intros Hall Hidx. unfold entryNames in Hall. rewrite Forall_forall in Hall.
  apply Hall. unfold entryAt. apply nth_In. unfold count in Hidx. lia.
Qed.

Lemma upto_first (k : Z) :
  1 <= k -> exists rest : list Z, upto k = 0 :: rest.
Proof.
  intros Hk. replace k with (Z.of_nat (1 + Z.to_nat (k - 1))) by lia.
  rewrite upto_add. eexists. reflexivity.
Qed.

Section GridLayout.

Variable host : Host.

(** C3.  For a list of names that is not empty and a positive width, the
    column width is the longest name length plus two, [cols] is
    [max(1, floor(width / colWidth))] and [rows] is
    [ceil(count / cols)].  The cell [(r, c)] of the grid prints the entry
    with the column-major index [idx = c * rows + r] (its decorated name
    and the padding of its column) exactly when [idx < count], and prints
    nothing at all otherwise.  For the names of directory entries, which
    are never empty and which [collectNames] keeps so, the listing prints
    the rows of these cells from the top, each followed by a line end.
    For the empty list the listing prints nothing. *)
Theorem gridListing_layout (dir : string) (names : list string) (width : Z) :
  (names <> [] -> 0 < width ->
     colWidth names = maxLenSpec names + 2 /\
     cols names width = Z.max 1 (width / colWidth names) /\
     rows names width = ceilDiv (count names) (cols names width) /\
     (forall r c : Z,
        0 <= r < rows names width -> 0 <= c < cols names width ->
        (c * rows names width + r < count names ->
           cellIndex names width r c = Some (c * rows names width + r) /\
           cellText host dir names width r c =
             paddedName host dir names width r c (c * rows names width + r)) /\
        (count names <= c * rows names width + r ->
           cellIndex names width r c = None /\
           cellText host dir names width r c = EmptyString /\
           forall st, printCell host dir names width r c st = st))) /\
  (names <> [] -> 0 < width -> entryNames names ->
     forall st : Streams,
       gridListing host dir names width st =
       Print (joinAll
                (map (fun r =>
                        joinAll
                          (map (fun c =>
                                  if c * rows names width + r <? count names
                                  then paddedName host dir names width r c
                                         (c * rows names width + r)
                                  else EmptyString)
                             (upto (cols names width))) ++ nl)
                   (upto (rows names width)))) st) /\
  (forall (allFlag : bool) (entries : list string),
     entryNames entries -> entryNames (collectNames host dir allFlag entries)) /\
  (forall st : Streams, gridListing host dir [] width st = st).
Proof.
  split; [|split; [|split]].
  - intros _ _. split; [unfold colWidth; rewrite maxLen_spec; reflexivity|].
    split; [apply cols_spec|]. split; [apply rows_ceil|].
    intros r c _ _. split; intros Hidx.
    + assert (Hc : cellIndex names width r c = Some (c * rows names width + r)).
      { rewrite cellIndex_spec.
        destruct (Z.ltb_spec (c * rows names width + r) (count names));
          [reflexivity | lia]. }
      split; [exact Hc|]. rewrite cellText_spec, Hc. reflexivity.
    + assert (Hc : cellIndex names width r c = None).
      { rewrite cellIndex_spec.
        destruct (Z.ltb_spec (c * rows names width + r) (count names));
          [lia | reflexivity]. }
      split; [exact Hc|]. split; [rewrite cellText_spec, Hc; reflexivity|].
      intros st. unfold printCell. rewrite Hc. reflexivity.
  - intros Hne _ Hall st.
    rewrite (gridListing_rows host dir names width st
               (entryNames_maxLen names Hne Hall)).
    f_equal. f_equal. apply map_ext. intros r. rewrite rowText_cells. reflexivity.
  - intros allFlag entries. apply collectNames_entryNames.
  - intros st. reflexivity.
Qed.

End GridLayout.

(** Three entries of the demonstration directory in a terminal of 80
    columns: one row of three cells. *)
Lemma gridListing_layout_witness :
  cellText demoHost "." ["docs"; "gone.mp3"; "setup.EXE"] 80 0 1 =
    "gone.mp3" ++ "   " /\
  gridListing demoHost "." ["docs"; "gone.mp3"; "setup.EXE"] 80 noOutput =
    mkStreams (blue "docs" ++ "       " ++ "gone.mp3" ++ "   "
               ++ green "setup.EXE" ++ nl) EmptyString.
Proof.
  destruct (gridListing_layout demoHost "." ["docs"; "gone.mp3"; "setup.EXE"] 80)
    as [Hcells [Hout _]].
  split.
  - destruct (Hcells ltac:(discriminate) ltac:(lia)) as [_ [_ [_ Hcell]]].
    destruct (Hcell 0 1 ltac:(vm_compute; split; [discriminate | reflexivity])
                ltac:(vm_compute; split; [discriminate | reflexivity]))
      as [Hin _].
    destruct (Hin ltac:(vm_compute; reflexivity)) as [_ Htext].
    rewrite Htext. vm_compute. reflexivity.
  - rewrite (Hout ltac:(discriminate) ltac:(lia)
               ltac:(repeat constructor; discriminate) noOutput).
    vm_compute. reflexivity.
Defined.

(** C4, as the code has it.  For a list of names that is not empty and
    any width there is at least one column, and every entry is printed by
    exactly one cell of the grid: the cell prints its decorated name and
    padding, and a cell without entry prints nothing.  What the cells
    print, read column by column, each column from the top, is the
    entries in their sorted order; so are the names of the cells.  Read
    row by row, as the lines are printed, the names are a permutation of
    the list.  For the names of directory entries the listing prints these
    rows. *)
Theorem grid_holds_each_entry_once (host : Host) (dir : string)
    (names : list string) (width : Z) :
  (names <> [] ->
     1 <= cols names width /\
     (forall i : Z, 0 <= i < count names ->
        exists r c : Z,
          (0 <= r < rows names width /\ 0 <= c < cols names width /\
           cellIndex names width r c = Some i /\
           cellText host dir names width r c =
             paddedName host dir names width r c i) /\
          (forall r' c' : Z,
             0 <= r' < rows names width -> 0 <= c' < cols names width ->
             cellIndex names width r' c' = Some i -> r' = r /\ c' = c)) /\
     (forall r c : Z,
        cellIndex names width r c = None ->
        cellText host dir names width r c = EmptyString) /\
     columnTexts host dir names width =
       map (fun idx => paddedName host dir names width
                         (idx mod rows names width) (idx / rows names width) idx)
         (upto (count names)) /\
     readColumns names width = names /\
     Permutation (readRows names width) names) /\
  (names <> [] -> entryNames names ->
     forall st : Streams,
       gridListing host dir names width st =
       Print (joinAll (map (fun r => rowText host dir names width r ++ nl)
                         (upto (rows names width)))) st).
Proof.
  split.
  - intros _. split; [apply cols_pos|]. split; [|split; [|split; [|split]]].
    + intros i Hi.
      destruct (cell_of_index names width i Hi) as [r [c [[Hr [Hc Hcell]] Huniq]]].
      exists r, c. split; [|exact Huniq].
      split; [exact Hr|]. split; [exact Hc|]. split; [exact Hcell|].
      rewrite cellText_spec, Hcell. reflexivity.
    + intros r c Hcell. rewrite cellText_spec, Hcell. reflexivity.
    + apply columnTexts_sorted.
    + apply readColumns_names.
    + apply readRows_perm.
  - intros Hne Hall st.
    apply gridListing_rows, entryNames_maxLen; assumption.
Qed.

(** Four entries in a terminal of six columns: two columns of two. *)
Lemma grid_holds_each_entry_once_witness :
  columnTexts lettersHost "." ["a"; "b"; "c"; "d"] 6 = ["a  "; "b  "; "c"; "d"] /\
  readColumns ["a"; "b"; "c"; "d"] 6 = ["a"; "b"; "c"; "d"] /\
  Permutation (readRows ["a"; "b"; "c"; "d"] 6) ["a"; "b"; "c"; "d"] /\
  gridListing lettersHost "." ["a"; "b"; "c"; "d"] 6 noOutput =
    mkStreams ("a  c" ++ nl ++ "b  d" ++ nl) EmptyString.
Proof.
  destruct (grid_holds_each_entry_once lettersHost "." ["a"; "b"; "c"; "d"] 6)
    as [Hcells Hout].
  destruct (Hcells ltac:(discriminate)) as [_ [_ [_ [Hcol [Hread Hperm]]]]].
  split; [rewrite Hcol; vm_compute; reflexivity|].
  split; [exact Hread|]. split; [exact Hperm|].
  rewrite (Hout ltac:(discriminate) ltac:(repeat constructor; discriminate)
             noOutput).
  vm_compute. reflexivity.
Defined.

(** The lines [main] prints for a directory with the entries [a], [b],
    [c] and [d] in a terminal of six columns are [a  c] and [b  d]: read
    row by row the grid gives [a], [c], [b], [d], not the sorted order. *)
Lemma grid_rows_are_not_sorted_order :
  collectNames lettersHost "." false ["d"; "b"; "a"; "c"] = ["a"; "b"; "c"; "d"] /\
  main lettersHost [] =
    mkOutcome (mkStreams ("a  c" ++ nl ++ "b  d" ++ nl) EmptyString) 0 /\
  cellText lettersHost "." ["a"; "b"; "c"; "d"] 6 0 1 = "c" /\
  readRows ["a"; "b"; "c"; "d"] 6 = ["a"; "c"; "b"; "d"] /\
  readRows ["a"; "b"; "c"; "d"] 6 <> ["a"; "b"; "c"; "d"].
Proof.
  split; [vm_compute; reflexivity|]. split; [vm_compute; reflexivity|].
  split; [vm_compute; reflexivity|]. split; [vm_compute; reflexivity|].
  vm_compute. discriminate.
Qed.


(** * Further properties of the programs *)

(** ** Further properties of the Entry Collector *)

Lemma filter_perm {A : Type} (f : A -> bool) (l l' : list A) :
  Permutation l l' -> Permutation (filter f l) (filter f l').
Proof.
  induction 1 as [|x l l' _ IH|x y l|l1 l2 l3 _ IH1 _ IH2]; simpl.
  - constructor.
  - destruct (f x); [apply perm_skip|]; exact IH.
  - destruct (f x), (f y); try apply Permutation_refl. apply perm_swap.
  - exact (perm_trans IH1 IH2).
Qed.

Lemma syntheticSpec_perm (a : bool) (l l' : list string) :
  Permutation l l' -> syntheticSpec a l = syntheticSpec a l'.
Proof.
  intros Hp. unfold syntheticSpec. destruct a; [|reflexivity].
  destruct (in_dec string_dec "." l) as [H1|H1];
    destruct (in_dec string_dec "." l') as [H1'|H1'];
    destruct (in_dec string_dec ".." l) as [H2|H2];
    destruct (in_dec string_dec ".." l') as [H2'|H2'];
    try reflexivity; exfalso;
    pose proof (fun x => Permutation_in x Hp) as Hin;
    pose proof (fun x => Permutation_in x (Permutation_sym Hp)) as Hin'; auto.
Qed.

Lemma sortStrings_perm_eq (l l' : list string) :
  Permutation l l' -> sortStrings l = sortStrings l'.
Proof.
  intros Hp. symmetry. apply sortStrings_unique.
  - eapply perm_trans; [exact Hp | apply sortStrings_perm].
  - apply sortStrings_sorted.
Qed.

(** X1.  The collected names do not depend on the order in which the
    directory read returns the children: two listings with the same
    children, in any order, give the same sorted names. *)
Theorem collectNames_order_independent (host : Host) (dir : string)
    (allFlag : bool) (entries entries' : list string) :
  Permutation entries entries' ->
  collectNames host dir allFlag entries = collectNames host dir allFlag entries'.
Proof.
  intros Hp. unfold collectNames. apply sortStrings_perm_eq.
  rewrite !addDotEntries_synthetic.
  pose proof (filter_perm (keepEntry host dir allFlag) _ _ Hp) as Hf.
  rewrite (syntheticSpec_perm allFlag _ _ Hf).
  apply Permutation_app_tail, Hf.
Qed.

(** Two children in either order. *)
Lemma collectNames_order_independent_witness :
  collectNames demoHost "." true ["b.txt"; "A.EXE"] =
  collectNames demoHost "." true ["A.EXE"; "b.txt"].
Proof.
  apply collectNames_order_independent. apply perm_swap.
Defined.

(** X2.  [-a] only adds names: every name listed without it is listed
    with it.  With [-a] the hidden attribute is not consulted at all: the
    names are the sorted children with [.] and [..] added where missing,
    whatever the host answers. *)
Theorem collectNames_all_includes_default (host : Host) (dir : string)
    (entries : list string) :
  (forall n : string,
     In n (collectNames host dir false entries) ->
     In n (collectNames host dir true entries)) /\
  collectNames host dir true entries =
    sortStrings (entries ++ syntheticSpec true entries).
Proof.
  assert (Hall : collectNames host dir true entries =
                 sortStrings (entries ++ syntheticSpec true entries)).
  { unfold collectNames. rewrite addDotEntries_synthetic.
    rewrite filter_all; reflexivity. }
  split; [|exact Hall]. intros n Hin. rewrite Hall.
  unfold collectNames in Hin.
  apply (Permutation_in n (Permutation_sym (sortStrings_perm _))) in Hin.
  apply (Permutation_in n (sortStrings_perm _)).
  rewrite addDotEntries_synthetic in Hin. simpl in Hin.
  rewrite app_nil_r in Hin. apply filter_In in Hin as [Hin _].
  apply in_or_app. left. exact Hin.
Qed.

(** A visible child stays listed with [-a]. *)
Lemma collectNames_all_includes_default_witness :
  In "docs" (collectNames demoHost "." true [".secret"; "docs"]).
Proof.
  apply (collectNames_all_includes_default demoHost "." [".secret"; "docs"]).
  vm_compute. left. reflexivity.
Defined.

(** ** Further properties of the grid *)

Lemma maxLenSpec_ge (names : list string) (n : string) :
  In n names -> Go.len n <= maxLenSpec names.
Proof.
  unfold maxLenSpec. induction names as [|h t IH]; simpl; [intros []|].
  intros [-> | Hin]; [lia|]. specialize (IH Hin). lia.
Qed.

Lemma entryAt_len (names : list string) (idx : Z) :
  Go.len (entryAt names idx) <= maxLen names.
Proof.
  rewrite maxLen_spec. unfold entryAt.
  destruct (nth_in_or_default (Z.to_nat idx) names EmptyString) as [Hin | ->].
  - apply maxLenSpec_ge, Hin.
  - apply maxLenSpec_nonneg.
Qed.

(** X7.  A cell that is not the last of its row prints the decorated name
    followed by spaces that fill the column: the name length plus the
    number of spaces is the column width, and there are at least two
    spaces, so the guard against a negative padding never applies.  The
    padding is counted from the bare name, not from the decorated one. *)
Theorem printCell_padding_fills_column (host : Host) (dir : string)
    (names : list string) (width r c idx : Z) :
  cellIndex names width r c = Some idx ->
  lastInRow names width r c = false ->
  exists k : nat,
    cellText host dir names width r c =
      colorName (hostMapLower host) (entryAt names idx)
        (Join host dir (entryAt names idx))
        (statInfo host (Join host dir (entryAt names idx)))
      ++ Go.spaces k /\
    Go.len (entryAt names idx) + Z.of_nat k = colWidth names /\
    (2 <= k)%nat.
Proof.
  intros Hc Hl. pose proof (entryAt_len names idx) as Hlen.
  exists (Z.to_nat (colWidth names - Go.len (entryAt names idx))).
  rewrite (cellText_entry host dir names width r c idx Hc), Hl.
  unfold colWidth in *. split; [reflexivity|]. lia.
Qed.

(** The middle cell of the demonstration directory. *)
Lemma printCell_padding_fills_column_witness :
  exists k : nat,
    cellText demoHost "." ["docs"; "gone.mp3"; "setup.EXE"] 80 0 1 =
      colorName asciiLower "gone.mp3" ".\gone.mp3" None ++ Go.spaces k /\
    Go.len "gone.mp3" + Z.of_nat k = 11 /\ (2 <= k)%nat.
Proof.
  apply (printCell_padding_fills_column demoHost "."
           ["docs"; "gone.mp3"; "setup.EXE"] 80 0 1 1); reflexivity.
Defined.

(** X8.  There are never more rows than entries, and the first cell of
    every row prints an entry (entry [r] in row [r]), so no printed line
    of a listing of directory entries is empty.  A cell with an entry
    prints the padding after the decorated name exactly when it is not in
    the last column and the cell to its right has an entry: no line ends
    in padding.  Within a row, the cells to the right of a cell without
    entry print nothing. *)
Theorem grid_rows_start_with_an_entry (host : Host) (dir : string)
    (names : list string) (width : Z) :
  rows names width <= count names /\
  (forall r : Z, 0 <= r < rows names width ->
     cellIndex names width r 0 = Some r /\
     cellText host dir names width r 0 = paddedName host dir names width r 0 r) /\
  (entryNames names ->
   forall r : Z, 0 <= r < rows names width ->
     rowText host dir names width r <> EmptyString) /\
  (forall r c idx : Z,
     cellIndex names width r c = Some idx ->
     cellText host dir names width r c =
       colorName (hostMapLower host) (entryAt names idx)
         (Join host dir (entryAt names idx))
         (statInfo host (Join host dir (entryAt names idx)))
       ++ match (if c =? cols names width - 1 then None
                 else cellIndex names width r (c + 1)) with
          | Some _ =>
              Go.spaces (Z.to_nat (colWidth names - Go.len (entryAt names idx)))
          | None => EmptyString
          end) /\
  (forall r c c' : Z,
     cellIndex names width r c = None -> c <= c' ->
     cellText host dir names width r c' = EmptyString).
Proof.
  pose proof (cols_pos names width) as Hc.
  pose proof (rows_nonneg names width) as Hr.
  destruct (rows_bounds names width) as [Hlo Hhi].
  pose proof (count_nonneg names) as Hn.
  assert (Hrn : rows names width <= count names).
  { destruct (Z.eq_dec (rows names width) 0) as [->|Hz]; [exact Hn|]. nia. }
  assert (Hfirst : forall r : Z, 0 <= r < rows names width ->
                     cellIndex names width r 0 = Some r).
  { intros r Hrr. rewrite cellIndex_spec.
    replace (0 * rows names width + r) with r by lia.
    destruct (Z.ltb_spec r (count names)) as [Hlt|Hge]; [reflexivity | lia]. }
  assert (Htext : forall r : Z, 0 <= r < rows names width ->
                    cellText host dir names width r 0 =
                    paddedName host dir names width r 0 r).
  { intros r Hrr. rewrite cellText_spec, (Hfirst r Hrr). reflexivity. }
  split; [exact Hrn|]. split; [|split; [|split]].
  - intros r Hrr. split; [apply Hfirst | apply Htext]; exact Hrr.
  - intros Hall r Hrr Hempty. unfold rowText in Hempty.
    destruct (upto_first (cols names width) Hc) as [rest Hrest].
    rewrite Hrest in Hempty. simpl in Hempty.
    apply append_empty in Hempty as [Hcell _].
    rewrite (Htext r Hrr) in Hcell. unfold paddedName in Hcell.
    apply append_empty in Hcell as [Hcolor _].
    destruct (colorName_holds_name (hostMapLower host) (entryAt names r)
                (Join host dir (entryAt names r))
                (statInfo host (Join host dir (entryAt names r))))
      as [before [after Heq]].
    rewrite Heq in Hcolor.
    apply append_empty in Hcolor as [_ Hrestc].
    apply append_empty in Hrestc as [Hname _].
    apply (entryAt_entryNames names r Hall); [lia | exact Hname].
  - intros r c idx Hcell.
    rewrite (cellText_entry host dir names width r c idx Hcell).
    f_equal. unfold lastInRow. rewrite cellIndex_spec.
    replace ((c + 1) * rows names width + r)
      with (c * rows names width + r + rows names width) by ring.
    destruct (c =? cols names width - 1); [reflexivity|]. simpl.
    destruct (Z.geb_spec (c * rows names width + r + rows names width)
                (count names));
      destruct (Z.ltb_spec (c * rows names width + r + rows names width)
                  (count names)); try lia; reflexivity.
  - intros r c c' Hnone Hle. rewrite cellText_spec.
    rewrite cellIndex_spec in *.
    destruct (Z.ltb_spec (c * rows names width + r) (count names))
      as [Hlt|Hge]; [discriminate|].
    destruct (Z.ltb_spec (c' * rows names width + r) (count names))
      as [Hlt'|Hge']; [nia | reflexivity].
Qed.

(** Five names in two columns: the third row has one entry, printed
    without padding. *)
Lemma grid_rows_start_with_an_entry_witness :
  rowText lettersHost "." ["a"; "b"; "c"; "d"; "e"] 6 0 = "a  d" /\
  rowText lettersHost "." ["a"; "b"; "c"; "d"; "e"] 6 2 = "c" /\
  rowText lettersHost "." ["a"; "b"; "c"; "d"; "e"] 6 2 <> EmptyString /\
  cellText lettersHost "." ["a"; "b"; "c"; "d"; "e"] 6 2 1 = EmptyString.
Proof.
  destruct (grid_rows_start_with_an_entry lettersHost "."
              ["a"; "b"; "c"; "d"; "e"] 6) as [_ [_ [Hrow [_ Hright]]]].
  split; [vm_compute; reflexivity|]. split; [vm_compute; reflexivity|].
  split.
  - apply Hrow; [repeat constructor; discriminate | vm_compute; split; [discriminate | reflexivity]].
  - apply (Hright 2 1 1); [vm_compute; reflexivity | lia].
Defined.

(** ** Further properties of the decoration *)

Lemma length_append (a b : string) :
  String.length (a ++ b) = (String.length a + String.length b)%nat.
Proof.
  induction a as [|x a IH]; simpl; [reflexivity|]. rewrite IH. reflexivity.
Qed.

(** X6.  [colorName] never changes the bytes of the name: the result is
    the name itself, or the name between the escape sequence of one of the
    five colour codes and the reset sequence.  The decoration adds nine
    bytes or none. *)
Theorem colorName_wraps_name (mapLower : string -> string) (name path : string)
    (fi : option FileInfo) :
  (colorName mapLower name path fi = name \/
   exists code : Z,
     In code colorCodes /\
     colorName mapLower name path fi =
       esc ++ "[" ++ decimal code ++ "m" ++ name ++ esc ++ "[0m") /\
  (Go.len (colorName mapLower name path fi) = Go.len name \/
   Go.len (colorName mapLower name path fi) = Go.len name + 9).
Proof.
  assert (Hwrap : forall code, In code colorCodes ->
            Go.len (colorWrap code name) = Go.len name + 9).
  { intros code Hin. unfold colorWrap, Go.len.
    rewrite !length_append.
    destruct Hin as [<-|[<-|[<-|[<-|[<-|[]]]]]]; simpl; lia. }
  unfold colorName, blue, green, red, magenta, cyan.
  destruct fi as [fi|]; [|split; left; reflexivity].
  destruct (IsDir fi).
  { split; [right; exists 34; split; [simpl; tauto | reflexivity]|].
    right. apply Hwrap. simpl. tauto. }
  destruct (isExecutable _).
  { split; [right; exists 32; split; [simpl; tauto | reflexivity]|].
    right. apply Hwrap. simpl. tauto. }
  destruct (isArchive _).
  { split; [right; exists 31; split; [simpl; tauto | reflexivity]|].
    right. apply Hwrap. simpl. tauto. }
  destruct (isImageOrVideo _).
  { split; [right; exists 35; split; [simpl; tauto | reflexivity]|].
    right. apply Hwrap. simpl. tauto. }
  destruct (isAudio _).
  { split; [right; exists 36; split; [simpl; tauto | reflexivity]|].
    right. apply Hwrap. simpl. tauto. }
  split; left; reflexivity.
Qed.

(** ** Further properties of the command line *)

Lemma split_token_not_ascii_combined (c : ascii) :
  isCombined ("-" ++ Go.stringOfByte c)
  && Go.isASCII ("-" ++ Go.stringOfByte c) = false.
Proof. by_bytes c. Qed.

Lemma passed_token_not_combined (a : string) :
  negb (Go.HasPrefix a "-") || Go.HasPrefix a "--" || (Go.len a =? 2) = true ->
  isCombined a = false.
Proof.
  unfold isCombined.
  destruct (Go.HasPrefix a "-"), (Go.HasPrefix a "--"); simpl;
    try reflexivity; try discriminate.
  intros H. apply Z.eqb_eq in H. rewrite H. reflexivity.
Qed.

(** X3.  Whatever the arguments, no token of the normalised list is the
    lone dash, and none is a combined short-option token of ASCII bytes (a
    single dash followed by two or more ASCII bytes): such a token never
    reaches the flag parser, so a directory with a name like [-old] cannot
    be named on the command line. *)
Theorem expandCombinedFlags_never_emits_lone_dash (args : list string) :
  existsb (String.eqb "-") (expandCombinedFlags args) = false /\
  forallb (fun t => negb (isCombined t && Go.isASCII t))
    (expandCombinedFlags args) = true.
Proof.
  split.
  - destruct (existsb (String.eqb "-") (expandCombinedFlags args)) eqn:He;
      [|reflexivity].
    exfalso. apply existsb_exists in He as [t [Hin Heq]].
    apply String.eqb_eq in Heq. subst t.
    unfold expandCombinedFlags in Hin. apply in_flat_map in Hin as [a [_ Hin]].
    unfold expandArg in Hin.
    destruct (negb (Go.HasPrefix a "-") || Go.HasPrefix a "--" || (Go.len a =? 2))
      eqn:Hc.
    + destruct Hin as [Heq|[]]. subst a. vm_compute in Hc. discriminate Hc.
    + apply in_map_iff in Hin as [c [Heq _]]. unfold Go.stringOfByte in Heq.
      destruct (Go.byteVal c <? Go.RuneSelf); discriminate Heq.
  - apply forallb_forall. intros t Hin.
    unfold expandCombinedFlags in Hin. apply in_flat_map in Hin as [a [_ Hin]].
    unfold expandArg in Hin.
    destruct (negb (Go.HasPrefix a "-") || Go.HasPrefix a "--" || (Go.len a =? 2))
      eqn:Hc.
    + destruct Hin as [Heq|[]]. subst t.
      rewrite (passed_token_not_combined a Hc). reflexivity.
    + apply in_map_iff in Hin as [c [Heq _]]. subst t.
      rewrite split_token_not_ascii_combined. reflexivity.
Qed.

Lemma normalizedArgs_expanded (args : list string) :
  Forall (fun a => Go.isASCII a = true) args ->
  normalizedArgs (expandCombinedFlags args) = normalizedArgs args.
Proof.
  intros Ha. unfold normalizedArgs.
  rewrite (expandCombinedFlags_ascii_idempotent args Ha).
  destruct args as [|a args]; [reflexivity|].
  replace (0 <? count (a :: args)) with true
    by (unfold count; simpl List.length; symmetry; apply Z.ltb_lt; lia).
  destruct (0 <? count (expandCombinedFlags (a :: args))) eqn:Hc; [reflexivity|].
  destruct (expandCombinedFlags (a :: args)); [reflexivity|].
  unfold count in Hc. simpl List.length in Hc. apply Z.ltb_ge in Hc. lia.
Qed.

(** X4.  For arguments of ASCII bytes, giving the flags already split
    runs the program exactly as giving them combined: [main] on the
    normalised arguments is [main] on the arguments. *)
Theorem main_accepts_split_flags (host : Host) (args : list string) :
  Forall (fun a => Go.isASCII a = true) args ->
  main host (expandCombinedFlags args) = main host args.
Proof.
  intros Ha. unfold main. rewrite (normalizedArgs_expanded args Ha).
  reflexivity.
Qed.

(** [-l -a] and [-la]. *)
Lemma main_accepts_split_flags_witness :
  main demoHost ["-l"; "-a"] = main demoHost ["-la"].
Proof.
  apply (main_accepts_split_flags demoHost ["-la"]).
  repeat constructor.
Defined.

(** X5.  When the first argument does not start with a dash it is the
    directory, and everything after it is ignored: flag parsing stops at
    the first argument that is not a flag, and only the first remaining
    argument is used. *)
Theorem main_ignores_arguments_after_directory (host : Host) (d : string)
    (rest : list string) :
  Go.HasPrefix d "-" = false ->
  main host (d :: rest) = main host [d].
Proof.
  intros Hd. destruct (expandArg_not_dash d Hd) as [He Hf].
  unfold main, normalizedArgs.
  replace (0 <? count (d :: rest)) with true
    by (unfold count; simpl List.length; symmetry; apply Z.ltb_lt; lia).
  replace (0 <? count [d]) with true by reflexivity.
  unfold expandCombinedFlags. simpl flat_map. rewrite He. simpl app.
  cbn [parseFlags]. rewrite Hf. reflexivity.
Qed.

(** A flag after the directory has no effect. *)
Lemma main_ignores_arguments_after_directory_witness :
  main demoHost ["."; "-l"; "other"] = main demoHost ["."].
Proof.
  apply main_ignores_arguments_after_directory. reflexivity.
Defined.

(** ** The grid in a narrow terminal *)

Lemma map_entryAt_upto (names : list string) :
  map (entryAt names) (upto (count names)) = names.
Proof.
  rewrite <- flat_map_singleton. apply entries_upto.
Qed.

Lemma map_over_entries {A : Type} (g : string -> A) (names : list string) :
  map (fun i => g (entryAt names i)) (upto (count names)) = map g names.
Proof.
  rewrite <- (map_map (entryAt names) g), map_entryAt_upto. reflexivity.
Qed.

Lemma narrow_cols_rows (names : list string) (width : Z) :
  width < colWidth names ->
  cols names width = 1 /\ rows names width = count names.
Proof.
  intros Hw. assert (Hc : cols names width = 1).
  { rewrite cols_spec. pose proof (maxLenSpec_nonneg names) as Hm.
    unfold colWidth in *. rewrite maxLen_spec in *.
    assert (width / (maxLenSpec names + 2) <= 0).
    { destruct (Z.le_gt_cases 0 width) as [Hp|Hn].
      - rewrite Z.div_small by lia. lia.
      - assert (width / (maxLenSpec names + 2) < 0)
          by (apply Z.div_lt_upper_bound; lia). lia. }
    lia. }
  split; [exact Hc|]. unfold rows. rewrite Hc.
  rewrite Z.quot_1_r. lia.
Qed.

(** X9.  When the terminal is narrower than one column (and some name is
    not empty) the grid has one column and as many rows as entries: every
    name is printed on a line of its own, decorated, without padding, in
    the order of the names. *)
Theorem gridListing_narrow_terminal (host : Host) (dir : string)
    (names : list string) (width : Z) (st : Streams) :
  0 < maxLen names -> width < colWidth names ->
  cols names width = 1 /\
  rows names width = count names /\
  gridListing host dir names width st =
  Print (joinAll (map (fun name =>
                         colorName (hostMapLower host) name (Join host dir name)
                           (statInfo host (Join host dir name)) ++ nl)
                    names)) st.
Proof.
  intros Hm Hw. destruct (narrow_cols_rows names width Hw) as [Hc Hr].
  split; [exact Hc|]. split; [exact Hr|].
  rewrite gridListing_Print. f_equal.
  unfold gridText. destruct (Z.eqb_spec (maxLen names) 0) as [Hz|_]; [lia|].
  rewrite Hc, Hr.
  match goal with
  | |- _ = joinAll (map ?g names) => rewrite <- (map_over_entries g names)
  end.
  f_equal. apply map_ext_in. intros r Hin.
  apply in_upto in Hin. change (upto 1) with [0]. simpl.
  assert (Hcell : cellIndex names width r 0 = Some r).
  { rewrite cellIndex_spec. replace (0 * rows names width + r) with r by lia.
    destruct (Z.ltb_spec r (count names)) as [Hlt|Hge]; [reflexivity | lia]. }
  rewrite (cellText_entry host dir names width r 0 r Hcell).
  unfold lastInRow. rewrite Hc. simpl. rewrite !append_nil_r. reflexivity.
Qed.

(** The demonstration directory in a terminal of width 10. *)
Lemma gridListing_narrow_terminal_witness :
  out (gridListing demoHost "." ["docs"; "gone.mp3"; "setup.EXE"] 10 noOutput) =
  joinAll [blue "docs" ++ nl; "gone.mp3" ++ nl; green "setup.EXE" ++ nl].
Proof.
  destruct (gridListing_narrow_terminal demoHost "."
              ["docs"; "gone.mp3"; "setup.EXE"] 10 noOutput) as [_ [_ Hg]];
    [reflexivity | reflexivity |].
  rewrite Hg. reflexivity.
Defined.

(** ** Properties of the console mode *)






(** ** Properties of the file-type detector *)

Lemma lookup_common_nonempty (k v : string) :
  Wfile.lookup Wfile.common k = Some v -> v <> "".
Proof.
  unfold Wfile.common. simpl.
  repeat (destruct (k =? _)%string;
          [intros Hv; injection Hv as <-; discriminate|]).
  discriminate.
Qed.

Lemma isASCII_TrimPrefix_dot (e : string) :
  Go.isASCII e = true -> Go.isASCII (Go.TrimPrefix e ".") = true.
Proof.
  destruct e as [|c r]; [reflexivity|]. rewrite TrimPrefix_dot.
  destruct (Ascii.eqb c "."); [|exact (fun H => H)].
  simpl. intros H. apply andb_prop in H as [_ H]. exact H.
Qed.

(** X12.  The detector and the lister take the same extension from a
    name: when the extension is made of ASCII bytes, lower-casing before
    the dot is removed ([wfile]) and after ([wls]) give the same string. *)
Theorem fileExt_agrees_with_lowerExt (mapLower : string -> string) (path : string) :
  Go.isASCII (Path.Ext path) = true ->
  Wfile.fileExt mapLower path = lowerExt mapLower path.
Proof.
  intros Ha. unfold Wfile.fileExt, lowerExt, ToLower.
  rewrite Ha, (isASCII_TrimPrefix_dot _ Ha). apply TrimPrefix_dot_lower.
Qed.

(** A path with directories and an upper-case extension. *)
Lemma fileExt_agrees_with_lowerExt_witness :
  Wfile.fileExt asciiLower "C:\docs\Report.PDF" = lowerExt asciiLower "C:\docs\Report.PDF" /\
  Wfile.fileExt asciiLower "C:\docs\Report.PDF" = "pdf".
Proof.
  split; [|reflexivity]. apply fileExt_agrees_with_lowerExt. reflexivity.
Defined.

(** X11.  For a file that is not a directory the name decides first: an
    extension found in the table [common] gives the description of the
    table (the table has no empty key, so the test for an empty extension
    never hides an entry); otherwise an extension the system knows gives
    its MIME type; in both cases the file is not opened.  The content is
    sniffed exactly when there is no extension or neither knows it. *)
Theorem detectType_name_decides_first (host : Wfile.TypeHost) (path : string)
    (fi : FileInfo) :
  Wfile.typeStat host path = Ok fi -> IsDir fi = false ->
  let ext := Wfile.fileExt (Wfile.typeMapLower host) path in
  (forall v : string,
     Wfile.lookup Wfile.common ext = Some v ->
     Wfile.detectType host path = Wfile.mkDetected ext v None) /\
  (Wfile.lookup Wfile.common ext = None -> ext <> "" ->
   Wfile.TypeByExtension host ("." ++ ext) <> "" ->
   Wfile.detectType host path =
   Wfile.mkDetected ext (Wfile.TypeByExtension host ("." ++ ext)) None) /\
  ((ext = "" \/
    (Wfile.lookup Wfile.common ext = None /\
     Wfile.TypeByExtension host ("." ++ ext) = "")) ->
   Wfile.detectType host path = Wfile.sniffType host path ext).
Proof.
  intros Hs Hd ext. unfold Wfile.detectType. rewrite Hs, Hd. fold ext.
  split; [|split].
  - intros v Hv. destruct (String.eqb_spec ext "") as [He|He].
    + rewrite He in Hv. discriminate Hv.
    + cbn [negb Wfile.detectedErr Wfile.detectedType]. rewrite Hv. reflexivity.
  - intros Hn He Hm. destruct (String.eqb_spec ext ""); [contradiction|].
    cbn [negb Wfile.detectedErr Wfile.detectedType]. rewrite Hn.
    destruct (String.eqb_spec (Wfile.TypeByExtension host ("." ++ ext)) "");
      [contradiction | reflexivity].
  - intros [He|[Hn Hm]].
    + rewrite He. reflexivity.
    + destruct (String.eqb_spec ext ""); [reflexivity|]. cbn [negb Wfile.detectedErr Wfile.detectedType].
      rewrite Hn, Hm. reflexivity.
Qed.

(** X13.  Provided content sniffing always names a type (as
    [http.DetectContentType] does), a detection without error never
    returns the empty type, and a detection with an error always does. *)
Theorem detectType_names_a_type (host : Wfile.TypeHost) (path : string) :
  (forall data : string, Wfile.DetectContentType host data <> "") ->
  (Wfile.detectedErr (Wfile.detectType host path) = None ->
   Wfile.detectedType (Wfile.detectType host path) <> "") /\
  (forall e : string,
     Wfile.detectedErr (Wfile.detectType host path) = Some e ->
     Wfile.detectedType (Wfile.detectType host path) = "").
Proof.
  intros Hdet.
  assert (Hsniff : forall ext,
            (Wfile.detectedErr (Wfile.sniffType host path ext) = None ->
             Wfile.detectedType (Wfile.sniffType host path ext) <> "") /\
            (forall e, Wfile.detectedErr (Wfile.sniffType host path ext) = Some e ->
             Wfile.detectedType (Wfile.sniffType host path ext) = "")).
  { intros ext. unfold Wfile.sniffType.
    destruct (Wfile.Open host path) as [content|e']; cbn [negb Wfile.detectedErr Wfile.detectedType].
    - destruct ((_ =? "application/octet-stream")%string && (ext =? "")%string);
        cbn [Wfile.detectedErr Wfile.detectedType];
        (split; [intros _ | discriminate]).
      + discriminate.
      + apply Hdet.
    - split; [discriminate | reflexivity]. }
  unfold Wfile.detectType.
  destruct (Wfile.typeStat host path) as [fi|e']; cbn [negb Wfile.detectedErr Wfile.detectedType];
    [|split; [discriminate | reflexivity]].
  destruct (IsDir fi); cbn [negb Wfile.detectedErr Wfile.detectedType]; [split; discriminate|].
  destruct (negb _); [|apply Hsniff].
  destruct (Wfile.lookup Wfile.common _) as [v|] eqn:Hv; cbn [negb Wfile.detectedErr Wfile.detectedType].
  - split; [intros _; exact (lookup_common_nonempty _ v Hv) | discriminate].
  - destruct (String.eqb_spec (Wfile.TypeByExtension host
                ("." ++ Wfile.fileExt (Wfile.typeMapLower host) path)) "")
      as [Hm|Hm]; cbn [negb Wfile.detectedErr Wfile.detectedType]; [apply Hsniff|].
    split; [intros _; exact Hm | discriminate].
Qed.

(** A table entry and a system MIME type. *)
Lemma detectType_name_decides_first_witness :
  Wfile.detectType demoTypeHost "Photo.JPG" =
    Wfile.mkDetected "jpg" "JPEG Image" None /\
  Wfile.detectType demoTypeHost "site.css" =
    Wfile.mkDetected "css" "text/css; charset=utf-8" None.
Proof.
  split.
  - apply (detectType_name_decides_first demoTypeHost "Photo.JPG"
             (mkFileInfo false "-rw-rw-rw-" 1234 (mkTimestamp 11 21 16 40)));
      reflexivity.
  - apply (detectType_name_decides_first demoTypeHost "site.css"
             (mkFileInfo false "-rw-rw-rw-" 1234 (mkTimestamp 11 21 16 40)));
      try reflexivity; discriminate.
Defined.

(** A file without extension, and a missing file. *)
Lemma detectType_names_a_type_witness :
  Wfile.detectedType (Wfile.detectType demoTypeHost "notes") <> "" /\
  Wfile.detectedType (Wfile.detectType demoTypeHost "missing") = "".
Proof.
  destruct (detectType_names_a_type demoTypeHost "notes") as [Hok _];
    [discriminate|].
  destruct (detectType_names_a_type demoTypeHost "missing") as [_ Herr];
    [discriminate|].
  split; [apply Hok; reflexivity | apply (Herr "no such file"); reflexivity].
Defined.





(** ** Properties of the alias [wla] *)

Lemma cstr_idem (s : string) : Wla.cstr (Wla.cstr s) = Wla.cstr s.
Proof.
  induction s as [|c r IH]; simpl; [reflexivity|].
  destruct (Ascii.eqb c "000") eqn:Hc; [reflexivity|].
  simpl. rewrite Hc, IH. reflexivity.
Qed.

Lemma cstr_append (a b : string) :
  Wla.cstr (Wla.cstr a ++ Wla.cstr b) = Wla.cstr a ++ Wla.cstr b.
Proof.
  induction a as [|c r IH]; simpl; [apply cstr_idem|].
  destruct (Ascii.eqb c "000") eqn:Hc; simpl; [apply cstr_idem|].
  rewrite Hc, IH. reflexivity.
Qed.

Lemma strlen_nonneg (s : string) : 0 <= Wla.strlen s.
Proof. unfold Wla.strlen. lia. Qed.

Lemma strlen_strcat (a b : string) :
  Wla.strlen (Wla.strcat a b) = Wla.strlen a + Wla.strlen b.
Proof.
  unfold Wla.strlen, Wla.strcat. rewrite cstr_append, length_append. lia.
Qed.

Lemma strlen_appendArg (cmd a : string) :
  Wla.strlen (Wla.appendArg cmd a) =
  Wla.strlen cmd + 1 + Wla.strlen a + (if Wla.hasSpace a then 2 else 0).
Proof.
  unfold Wla.appendArg. destruct (Wla.hasSpace a);
    rewrite !strlen_strcat; change (Wla.strlen " ") with 1;
    try change (Wla.strlen Wla.dquote) with 1; lia.
Qed.

Lemma strlen_appendArg_bounds (cmd a : string) :
  Wla.strlen cmd < Wla.strlen (Wla.appendArg cmd a) <=
  Wla.strlen cmd + Wla.strlen a + 3.
Proof.
  rewrite strlen_appendArg. pose proof (strlen_nonneg a).
  destruct (Wla.hasSpace a); lia.
Qed.

Lemma strlen_loop (args : list string) (cmd : string) :
  Wla.strlen cmd <= Wla.strlen (fold_left Wla.appendArg args cmd) <=
  Wla.strlen cmd + argsSize args.
Proof.
  revert cmd. induction args as [|a args IH]; intros cmd; simpl; [lia|].
  specialize (IH (Wla.appendArg cmd a)).
  pose proof (strlen_appendArg_bounds cmd a). lia.
Qed.

Lemma argsSize_nonneg (args : list string) : 0 <= argsSize args.
Proof.
  induction args as [|a args IH]; simpl; [lia|].
  pose proof (strlen_nonneg a). lia.
Qed.

Lemma argsSize_app (a b : list string) :
  argsSize (a ++ b) = argsSize a + argsSize b.
Proof. induction a as [|x a IH]; simpl; [reflexivity|]. rewrite IH. lia. Qed.

Lemma toInt_small (z : Z) : - 2 ^ 31 <= z < 2 ^ 31 -> Wla.toInt z = z.
Proof.
  intros Hz. unfold Wla.toInt. rewrite Z.mod_small; lia.
Qed.

Lemma bufsize_loop (args : list string) (b : Z) :
  0 <= b -> b + argsSize args < 2 ^ 31 ->
  fold_left (fun b a => Wla.toInt (b + Wla.toInt (Wla.toInt (Wla.strlen a) + 3)))
    args b = b + argsSize args.
Proof.
  revert b. induction args as [|a args IH]; intros b Hb Hs; simpl in *; [lia|].
  pose proof (strlen_nonneg a) as Ha. pose proof (argsSize_nonneg args) as Hn.
  rewrite (toInt_small (Wla.strlen a)) by lia.
  rewrite (toInt_small (Wla.strlen a + 3)) by lia.
  rewrite (toInt_small (b + (Wla.strlen a + 3))) by lia.
  rewrite IH by lia. lia.
Qed.

(** X15.  As long as the size computed by the first loop does not
    overflow an [int], the buffer is 1024 bytes plus three bytes and the
    length of each argument, and the command line fits after every
    iteration of the second loop, terminating NUL included, with 1010
    bytes to spare: no [strcat] writes past the buffer. *)
Theorem wla_command_fits_buffer (args : list string) :
  1024 + argsSize args < 2 ^ 31 ->
  Wla.bufsize args = 1024 + argsSize args /\
  (forall done todo : list string,
     args = (done ++ todo)%list ->
     Wla.strlen (Wla.buildCmd done) + 1 + 1010 <= Wla.bufsize args).
Proof.
  intros Hs.
  assert (Hb : Wla.bufsize args = 1024 + argsSize args).
  { unfold Wla.bufsize. apply bufsize_loop; lia. }
  split; [exact Hb|]. intros done todo ->. rewrite Hb.
  unfold Wla.buildCmd.
  pose proof (strlen_loop done (Wla.cstr "wls.exe -l -a")) as [_ Hhi].
  change (Wla.strlen (Wla.cstr "wls.exe -l -a")) with 13 in Hhi.
  rewrite argsSize_app. pose proof (argsSize_nonneg todo). lia.
Qed.

(** Two arguments, one with a space. *)
Lemma wla_command_fits_buffer_witness :
  Wla.bufsize ["My Documents"; "x"] = 1043 /\
  Wla.strlen (Wla.buildCmd ["My Documents"; "x"]) + 1 + 1010 <=
    Wla.bufsize ["My Documents"; "x"].
Proof.
  destruct (wla_command_fits_buffer ["My Documents"; "x"]) as [Hb Hfit];
    [vm_compute; reflexivity|].
  split; [rewrite Hb; reflexivity|].
  apply (Hfit ["My Documents"; "x"] []). reflexivity.
Defined.

Lemma main_exit_code_range (host : Host) (args : list string) :
  0 <= exitCode (main host args) <= 2.
Proof.
  unfold main.
  destruct (parseFlags false false (normalizedArgs args)) as [l a rest| |];
    simpl; try lia.
  destruct (ReadDir host (targetDir rest)); [destruct l|]; simpl; lia.
Qed.

(** X16.  When the buffer is allocated, [wla] returns 1 if the child
    cannot be created and otherwise the exit code of the child converted
    to [int]: unchanged below 2^31, and less 2^32 from there on.  The exit
    codes of [wls] (0, 1 and 2) are forwarded unchanged. *)
Theorem wla_forwards_exit_code (os : Wla.Processes) (args : list string) :
  Wla.mallocOk os (Wla.bufsize args) = true ->
  (Wla.CreateProcessA os (Wla.buildCmd args) = None -> Wla.main os args = 1) /\
  (forall code : Z,
     Wla.CreateProcessA os (Wla.buildCmd args) = Some (Some code) ->
     (0 <= code < 2 ^ 31 -> Wla.main os args = code) /\
     (2 ^ 31 <= code < 2 ^ 32 -> Wla.main os args = code - 2 ^ 32)) /\
  (forall (host : Host) (wlsArgs : list string),
     Wla.CreateProcessA os (Wla.buildCmd args) =
       Some (Some (exitCode (main host wlsArgs))) ->
     Wla.main os args = exitCode (main host wlsArgs)).
Proof.
  intros Hm. unfold Wla.main. rewrite Hm. simpl negb. cbv iota.
  split; [intros ->; reflexivity|]. split.
  - intros code ->. split; intros Hc.
    + apply toInt_small. lia.
    + unfold Wla.toInt.
      replace (code + 2 ^ 31) with ((code - 2 ^ 31) + 1 * 2 ^ 32) by lia.
      rewrite Z.mod_add by lia. rewrite Z.mod_small; lia.
  - intros host wlsArgs ->. apply toInt_small.
    pose proof (main_exit_code_range host wlsArgs). lia.
Qed.

(** A child that ends with 1. *)
Lemma wla_forwards_exit_code_witness :
  Wla.main demoProcesses ["nowhere"] = 1.
Proof.
  destruct (wla_forwards_exit_code demoProcesses ["nowhere"] eq_refl)
    as [_ [Hcode _]].
  apply (Hcode 1 eq_refl). lia.
Defined.





(** ** Flags in any order *)




